(** * VictoriaMetrics: JSON log flattening and label admission limits

    A shallow embedding of

    - [lib/logstorage/json_parser.go]: [JSONParser], which flattens one JSON
      log message into a list of name/value [Field]s, and
    - the label limits of [lib/storage]: [ExceedingLabels] with its three
      counters and its throttled warnings.

    Go [string]s are [string]s, [[]byte] slices are [list byte], slices
    of structs are lists, [int]s are [Z] and an [atomic.Uint64] is a [Z]
    with its wrap-around at 2^64 written out.  A Go function that updates
    its receiver returns the new receiver. *)

From Stdlib Require Import List String Ascii Bool ZArith Lia Permutation.
From Stdlib Require Import Strings.Byte.
Import ListNotations.

Local Open Scope string_scope.
Local Open Scope list_scope.

(** ** Byte slices and strings *)

Module bytesutil.

(** [bytesutil.ToUnsafeString]: the string that shares the bytes of [b]. *)
Definition ToUnsafeString (b : list byte) : string := string_of_list_byte b.

End bytesutil.

(** [append(dst, s...)] for a string [s]: the bytes of [s]. *)
Definition s2b (s : string) : list byte := list_byte_of_string s.

(** ** The JSON value tree of the tokenizer *)

Module fastjson.

(** [fastjson.Type]. *)
Inductive Type_ : Set :=
| TypeNull | TypeObject | TypeArray | TypeString
| TypeNumber | TypeTrue | TypeFalse.

(** [Type.String]. *)
Definition Type_String (t : Type_) : string :=
  match t with
  | TypeObject => "object"
  | TypeArray => "array"
  | TypeString => "string"
  | TypeNumber => "number"
  | TypeTrue => "true"
  | TypeFalse => "false"
  | TypeNull => "null"
  end.

#[local] Unset Elimination Schemes.

(** Modelled from the spec: the value tree produced by the upstream JSON
    tokenizer (the vendored fastjson package is not among the sources).
    A string leaf and an object key hold the raw text found between the
    quotes, a number holds its text as written; an object keeps its
    members in the tokenizer's iteration order. *)
Inductive Value : Set :=
| VNull
| VObject (kvs : list (string * Value))
| VArray (a : list Value)
| VString (s : string)
| VNumber (s : string)
| VTrue
| VFalse.
#[local] Set Elimination Schemes.

Definition Type_of (v : Value) : Type_ :=
  match v with
  | VNull => TypeNull
  | VObject _ => TypeObject
  | VArray _ => TypeArray
  | VString _ => TypeString
  | VNumber _ => TypeNumber
  | VTrue => TypeTrue
  | VFalse => TypeFalse
  end.

(** [Value.GetObject]: the members of an object, nothing for any other
    value. *)
Definition GetObject (v : Value) : list (string * Value) :=
  match v with
  | VObject kvs => kvs
  | _ => []
  end.

(** *** Decoding of string escapes *)

Definition hexval (c : ascii) : option N :=
  let n := N_of_ascii c in
  if ((48 <=? n) && (n <=? 57))%N then Some (n - 48)%N
  else if ((97 <=? n) && (n <=? 102))%N then Some (n - 87)%N
  else if ((65 <=? n) && (n <=? 70))%N then Some (n - 55)%N
  else None.

(** [strconv.ParseUint(xs, 16, 16)] on four characters. *)
Definition hex4 (a b c d : ascii) : option N :=
  match hexval a, hexval b, hexval c, hexval d with
  | Some x3, Some x2, Some x1, Some x0 =>
      Some (x3 * 4096 + x2 * 256 + x1 * 16 + x0)%N
  | _, _, _, _ => None
  end.

Definition chr (n : N) : ascii := ascii_of_N n.

(** [string(rune(r))]: the UTF-8 encoding of a code point. *)
Definition utf8 (r : N) : string :=
  if (r <? 128)%N then String (chr r) ""
  else if (r <? 2048)%N then
    String (chr (192 + r / 64)) (String (chr (128 + r mod 64)) "")
  else if (r <? 65536)%N then
    String (chr (224 + r / 4096))
      (String (chr (128 + (r / 64) mod 64))
         (String (chr (128 + r mod 64)) ""))
  else
    String (chr (240 + r / 262144))
      (String (chr (128 + (r / 4096) mod 64))
         (String (chr (128 + (r / 64) mod 64))
            (String (chr (128 + r mod 64)) ""))).

(** [utf16.IsSurrogate]. *)
Definition IsSurrogate (r : N) : bool := ((55296 <=? r) && (r <? 57344))%N.

(** [utf16.DecodeRune]: U+FFFD unless [r1], [r2] are a high and a low
    surrogate. *)
Definition DecodeRune (r1 r2 : N) : N :=
  if ((55296 <=? r1) && (r1 <? 56320) && (56320 <=? r2) && (r2 <? 57344))%N
  then ((r1 - 55296) * 1024 + (r2 - 56320) + 65536)%N
  else 65533%N.

Definition dquote : ascii := chr 34.

(** The two-character escapes and the character each stands for. *)
Definition escaped (ch : ascii) : option ascii :=
  if (ch =? dquote)%char then Some dquote
  else if (ch =? "\")%char then Some "\"%char
  else if (ch =? "/")%char then Some "/"%char
  else if (ch =? "b")%char then Some (chr 8)
  else if (ch =? "f")%char then Some (chr 12)
  else if (ch =? "n")%char then Some (chr 10)
  else if (ch =? "r")%char then Some (chr 13)
  else if (ch =? "t")%char then Some (chr 9)
  else None.

(** Modelled from the spec: the tokenizer's best-effort decoder of the
    raw text of a string ("the decoded string content (unescaped, not the
    raw JSON-quoted text)").  An escape that cannot be decoded is kept as
    it is written. *)
Fixpoint unescapeStringBestEffort (s : string) : string :=
  match s with
  | "" => ""
  | String "\" "" => ""
  | String "\" (String ch t) =>
      match escaped ch with
      | Some c => String c (unescapeStringBestEffort t)
      | None =>
          if (ch =? "u")%char then
            match t with
            | String a (String b (String c (String d t4))) =>
                match hex4 a b c d with
                | None => String "\" (String "u" (unescapeStringBestEffort t))
                | Some x =>
                    if negb (IsSurrogate x)
                    then utf8 x ++ unescapeStringBestEffort t4
                    else
                      match t4 with
                      | String "\" (String "u"
                          (String e (String f (String g (String h t10))))) =>
                          match hex4 e f g h with
                          | Some x1 =>
                              utf8 (DecodeRune x x1)
                                ++ unescapeStringBestEffort t10
                          | None =>
                              String "\" (String "u" (String a (String b
                                (String c (String d
                                   (unescapeStringBestEffort t4))))))
                          end
                      | _ =>
                          String "\" (String "u" (String a (String b
                            (String c (String d
                               (unescapeStringBestEffort t4))))))
                      end
                end
            | _ => String "\" (String "u" (unescapeStringBestEffort t))
            end
          else String "\" (String ch (unescapeStringBestEffort t))
      end
  | String c t => String c (unescapeStringBestEffort t)
  end.

(** [Value.GetStringBytes]: the decoded content of a string leaf. *)
Definition GetStringBytes (v : Value) : list byte :=
  match v with
  | VString s => s2b (unescapeStringBestEffort s)
  | _ => []
  end.


(** The loop of the serializer over the members of an object or the
    elements of an array: [f] writes one of them, and a comma follows
    each but the last. *)
Fixpoint joined {A : Type} (f : A -> list byte -> list byte) (l : list A)
  (dst : list byte) : list byte :=
  match l with
  | [] => dst
  | x :: rest =>
      let dst := f x dst in
      match rest with
      | [] => dst
      | _ :: _ => joined f rest (dst ++ s2b ",")
      end
  end.

(** Modelled from the spec: [Value.MarshalTo], the tokenizer's serializer
    ("its canonical textual JSON representation (e.g. [1,2], 123, true)"):
    no blanks, members and elements separated by a comma, a number as it
    was written, a string leaf and a key as their raw text in quotes. *)
Fixpoint MarshalTo (v : Value) (dst : list byte) {struct v} : list byte :=
  match v with
  | VObject kvs =>
      let dst := dst ++ s2b "{" in
      let dst :=
        joined (fun kv dst =>
                  let dst := dst ++ s2b (String dquote (fst kv)) in
                  let dst := dst ++ s2b (String dquote ":") in
                  MarshalTo (snd kv) dst) kvs dst in
      dst ++ s2b "}"
  | VArray a =>
      let dst := dst ++ s2b "[" in
      let dst := joined MarshalTo a dst in
      dst ++ s2b "]"
  | VString s =>
      let dst := dst ++ s2b (String dquote s) in
      dst ++ s2b (String dquote "")
  | VNumber s => dst ++ s2b s
  | VTrue => dst ++ s2b "true"
  | VFalse => dst ++ s2b "false"
  | VNull => dst ++ s2b "null"
  end.

Definition Type_eqb (a b : Type_) : bool :=
  match a, b with
  | TypeNull, TypeNull | TypeObject, TypeObject | TypeArray, TypeArray
  | TypeString, TypeString | TypeNumber, TypeNumber
  | TypeTrue, TypeTrue | TypeFalse, TypeFalse => true
  | _, _ => false
  end.

(** [Parser.Parse]: the value tree of a text, or an error. *)
Definition Tokenizer : Set := string -> Value + string.

End fastjson.

(** ** A tokenizer to run the parser on texts *)

Module reader.
Import fastjson.

Definition isWS (c : ascii) : bool :=
  ((c =? " ") || (c =? chr 10) || (c =? chr 9) || (c =? chr 13))%char.

Fixpoint skipWS (s : string) : string :=
  match s with
  | String c t => if isWS c then skipWS t else s
  | "" => ""
  end.

(** The raw text up to the closing quote, and what follows the quote.
    A backslash takes the next character with it. *)
Fixpoint parseRawString (s : string) : option (string * string) :=
  match s with
  | "" => None
  | String c t =>
      if (c =? dquote)%char then Some ("", t)
      else if (c =? "\")%char then
        match t with
        | "" => None
        | String c' t' =>
            match parseRawString t' with
            | Some (r, tail) => Some (String c (String c' r), tail)
            | None => None
            end
        end
      else
        match parseRawString t with
        | Some (r, tail) => Some (String c r, tail)
        | None => None
        end
  end.

Definition isNumChar (c : ascii) : bool :=
  let n := N_of_ascii c in
  ((48 <=? n) && (n <=? 57))%N
  || ((c =? ".") || (c =? "-") || (c =? "e") || (c =? "E") || (c =? "+"))%char.

(** The longest run of number characters, and the rest. *)
Fixpoint parseRawNumber (s : string) : string * string :=
  match s with
  | String c t =>
      if isNumChar c then let '(ns, tail) := parseRawNumber t in (String c ns, tail)
      else ("", s)
  | "" => ("", "")
  end.

Fixpoint drop (n : nat) (s : string) : string :=
  match n, s with
  | S n, String _ t => drop n t
  | _, _ => s
  end.

Definition parsed : Set := (Value * string) + string.

Fixpoint parseValue (fuel : nat) (s : string) {struct fuel} : parsed :=
  match fuel with
  | O => inr "too big depth for the nested JSON"
  | S fuel =>
      match s with
      | "" => inr "cannot parse empty string"
      | String c t =>
          if (c =? "{")%char then
            match skipWS t with
            | "" => inr "missing '}'"
            | String c' t' =>
                if (c' =? "}")%char then inl (VObject [], t')
                else parseObject fuel (String c' t') []
            end
          else if (c =? "[")%char then
            match skipWS t with
            | "" => inr "missing ']'"
            | String c' t' =>
                if (c' =? "]")%char then inl (VArray [], t')
                else parseArray fuel (String c' t') []
            end
          else if (c =? dquote)%char then
            match parseRawString t with
            | Some (ss, tail) => inl (VString ss, tail)
            | None => inr "cannot parse string: missing closing quote"
            end
          else if (c =? "t")%char then
            if prefix "true" s then inl (VTrue, drop 4 s)
            else inr "unexpected value found"
          else if (c =? "f")%char then
            if prefix "false" s then inl (VFalse, drop 5 s)
            else inr "unexpected value found"
          else if (c =? "n")%char then
            if prefix "null" s then inl (VNull, drop 4 s)
            else inr "unexpected value found"
          else
            match parseRawNumber s with
            | ("", _) => inr "cannot parse number: unexpected char"
            | (ns, tail) => inl (VNumber ns, tail)
            end
      end
  end

with parseArray (fuel : nat) (s : string) (a : list Value) {struct fuel} : parsed :=
  match fuel with
  | O => inr "too big depth for the nested JSON"
  | S fuel =>
      match parseValue fuel (skipWS s) with
      | inr err => inr ("cannot parse array value: " ++ err)%string
      | inl (v, s) =>
          let a := a ++ [v] in
          match skipWS s with
          | "" => inr "unexpected end of array"
          | String c t =>
              if (c =? ",")%char then parseArray fuel t a
              else if (c =? "]")%char then inl (VArray a, t)
              else inr "missing ',' after array value"
          end
      end
  end

with parseObject (fuel : nat) (s : string) (kvs : list (string * Value))
       {struct fuel} : parsed :=
  match fuel with
  | O => inr "too big depth for the nested JSON"
  | S fuel =>
      match skipWS s with
      | "" => inr "cannot find opening quote for object key"
      | String c t =>
          if negb (c =? dquote)%char then
            inr "cannot find opening quote for object key"
          else
            match parseRawString t with
            | None => inr "cannot parse object key: missing closing quote"
            | Some (k, s) =>
                match skipWS s with
                | "" => inr "missing ':' after object key"
                | String c t =>
                    if negb (c =? ":")%char then inr "missing ':' after object key"
                    else
                      match parseValue fuel (skipWS t) with
                      | inr err => inr ("cannot parse object value: " ++ err)%string
                      | inl (v, s) =>
                          let kvs := kvs ++ [(k, v)] in
                          match skipWS s with
                          | "" => inr "unexpected end of object"
                          | String c t =>
                              if (c =? ",")%char then parseObject fuel t kvs
                              else if (c =? "}")%char then inl (VObject kvs, t)
                              else inr "missing ',' after object value"
                          end
                      end
                end
            end
      end
  end.

(** Modelled from the spec: the upstream JSON tokenizer ("parses rawJSON
    into a value tree", or fails), as a recursive-descent reader that
    keeps the members of an object in the order of the text. *)
Definition Parse : Tokenizer := fun s =>
  let s := skipWS s in
  match parseValue (2 * String.length s + 2) s with
  | inr err => inr ("cannot parse JSON: " ++ err)%string
  | inl (v, tail) =>
      match skipWS tail with
      | "" => inl v
      | _ => inr "unexpected tail"
      end
  end.

(** A JSON text written with ['] for the double quote. *)
Fixpoint text (s : string) : string :=
  match s with
  | "" => ""
  | String c t => String (if (c =? "'")%char then dquote else c) (text t)
  end.

End reader.

(** ** [lib/logstorage/json_parser.go] *)

Module logstorage.

(** [Field]: one name/value pair of a log entry. *)
Record Field : Set := mkField { Name : string; Value : string }.

(** [JSONParser].  The tokenizer [p] kept in the Go struct only holds
    scratch memory that [Parse] overwrites on every call, so it has no
    field here. *)
Record JSONParser : Set := mkJSONParser {
  Fields : list Field;
  buf : list byte;
  prefixBuf : list byte
}.

(** [&JSONParser{}]. *)
Definition newJSONParser : JSONParser := mkJSONParser [] [] [].

Definition resetNobuf (p : JSONParser) : JSONParser :=
  mkJSONParser [] (buf p) [].

Definition reset (p : JSONParser) : JSONParser :=
  let p := resetNobuf p in
  mkJSONParser (Fields p) [] (prefixBuf p).

(** [PutJSONParser]: what the parser is when it goes back to the pool. *)
Definition PutJSONParser (p : JSONParser) : JSONParser := reset p.

Definition appendLogField (dst : list Field) (dstBuf prefixBuf k value : list byte)
  : list Field * list byte :=
  let dstBufLen := List.length dstBuf in
  let dstBuf := dstBuf ++ prefixBuf in
  let dstBuf := dstBuf ++ k in
  let name := skipn dstBufLen dstBuf in
  let dst := dst ++ [mkField (bytesutil.ToUnsafeString name)
                             (bytesutil.ToUnsafeString value)] in
  (dst, dstBuf).

(** The three values the visitor of [appendLogFields] updates: [dst],
    [dstBuf] and [prefixBuf], which the Go closure captures. *)
Definition acc : Set := (list Field * list byte * list byte)%type.

(** [Object.Visit]: calls [f] on every member, in the object's order,
    with the decoded key. *)
Definition Visit (o : list (string * fastjson.Value))
  (f : list byte -> fastjson.Value -> acc -> acc) (st : acc) : acc :=
  fold_left
    (fun st kv => f (s2b (fastjson.unescapeStringBestEffort (fst kv))) (snd kv) st)
    o st.

Fixpoint appendLogFields (dst : list Field) (dstBuf prefixBuf : list byte)
  (v : fastjson.Value) {struct v} : acc :=
  match v with
  | fastjson.VObject o =>
      Visit o (fun k v '(dst, dstBuf, prefixBuf) =>
        let t := fastjson.Type_of v in
        match t with
        | fastjson.TypeNull =>
            (* Skip nulls *)
            (dst, dstBuf, prefixBuf)
        | fastjson.TypeObject =>
            (* Flatten nested JSON objects. *)
            let prefixLen := List.length prefixBuf in
            let prefixBuf := prefixBuf ++ k in
            let prefixBuf := prefixBuf ++ s2b "." in
            let '(dst, dstBuf, prefixBuf) :=
              appendLogFields dst dstBuf prefixBuf v in
            let prefixBuf := firstn prefixLen prefixBuf in
            (dst, dstBuf, prefixBuf)
        | fastjson.TypeArray | fastjson.TypeNumber
        | fastjson.TypeTrue | fastjson.TypeFalse =>
            (* Convert JSON arrays, numbers, true and false values to
               their string representation *)
            let dstBufLen := List.length dstBuf in
            let dstBuf := fastjson.MarshalTo v dstBuf in
            let value := skipn dstBufLen dstBuf in
            let '(dst, dstBuf) := appendLogField dst dstBuf prefixBuf k value in
            (dst, dstBuf, prefixBuf)
        | fastjson.TypeString =>
            (* Decode JSON strings *)
            let dstBufLen := List.length dstBuf in
            let dstBuf := dstBuf ++ fastjson.GetStringBytes v in
            let value := skipn dstBufLen dstBuf in
            let '(dst, dstBuf) := appendLogField dst dstBuf prefixBuf k value in
            (dst, dstBuf, prefixBuf)
        end) (dst, dstBuf, prefixBuf)
  | _ => (dst, dstBuf, prefixBuf)
  end.

(** The two errors of [parseLogMessage].  Go builds them with
    [fmt.Errorf]; [Error] gives the message. *)
Inductive error : Set :=
| MalformedInput (err : string)
| UnexpectedRootType (t : fastjson.Type_).

Definition Error (e : error) : string :=
  match e with
  | MalformedInput err => "cannot parse json: " ++ err
  | UnexpectedRootType t =>
      "expecting json dictionary; got " ++ fastjson.Type_String t
  end.

Section Parser.

(** The tokenizer is outside of this package: the parser is
    parameterised by it. *)
Variable Parse : fastjson.Tokenizer.

Definition parseLogMessage (p : JSONParser) (msg prefix : string)
  (resetBuf : bool) : JSONParser * option error :=
  match Parse msg with
  | inr err => (p, Some (MalformedInput err))
  | inl v =>
      let t := fastjson.Type_of v in
      if negb (fastjson.Type_eqb t fastjson.TypeObject)
      then (p, Some (UnexpectedRootType t))
      else
        let p := if resetBuf then reset p else resetNobuf p in
        let p := mkJSONParser (Fields p) (buf p)
                   (firstn 0 (prefixBuf p) ++ s2b prefix) in
        let '(fields, dstBuf, prefixBuf) :=
          appendLogFields (Fields p) (buf p) (prefixBuf p) v in
        (mkJSONParser fields dstBuf prefixBuf, None)
  end.

Definition ParseLogMessageNoResetBuf (p : JSONParser) (msg prefix : string) :=
  parseLogMessage p msg prefix false.

Definition ParseLogMessage (p : JSONParser) (msg : list byte) (prefix : string) :=
  let msgStr := bytesutil.ToUnsafeString msg in
  parseLogMessage p msgStr prefix true.

End Parser.

(** The loop of [RenameField]: the first field called [oldName] gets
    the new name, and the loop returns. *)
Fixpoint renameFirst (fields : list Field) (oldName newName : string) : list Field :=
  match fields with
  | [] => []
  | f :: rest =>
      if (Name f =? oldName)%string then mkField newName (Value f) :: rest
      else f :: renameFirst rest oldName newName
  end.

Definition RenameField (p : JSONParser) (oldName newName : string) : JSONParser :=
  if (oldName =? "")%string then p
  else mkJSONParser (renameFirst (Fields p) oldName newName) (buf p) (prefixBuf p).

End logstorage.

(** ** Label limits of [lib/storage] *)

Module prompbmarshal.

(** [prompbmarshal.Label]. *)
Record Label : Set := mkLabel { Name : string; Value : string }.

End prompbmarshal.

Module storage.
Import prompbmarshal.

Local Open Scope Z_scope.

(** [len] of a string and of a slice, as a Go [int]. *)
Definition len (s : string) : Z := Z.of_nat (String.length s).
Definition len_ {A : Type} (l : list A) : Z := Z.of_nat (List.length l).

(** The maximum length of label name. *)
Definition maxLabelNameLen : Z := 256.

(** [atomic.Uint64.Add]. *)
Definition Uint64_Add (c delta : Z) : Z := (c + delta) mod 2 ^ 64.

(** What [logger.Warnf] is called with. *)
Inductive Warning : Set :=
| TooManyLabelsWarning (n : Z) (labels : list Label) (limit : Z)
| TooLongLabelValueWarning (label : Label) (labels : list Label) (n limit : Z)
| TooLongLabelNameWarning (label : Label) (labels : list Label) (n limit : Z).

(** The package-level variables: the two limits, the three counters,
    for each ticker whether a tick waits in its channel, and the warnings
    logged so far. *)
Record Globals : Set := mkGlobals {
  maxLabelsPerTimeseries : Z;
  maxLabelValueLen : Z;
  ignoredSeriesWithTooManyLabels : Z;
  ignoredSeriesWithTooLongLabelName : Z;
  ignoredSeriesWithTooLongLabelValue : Z;
  ignoredSeriesWithTooManyLabelsLogTicker : bool;
  ignoredSeriesWithTooLongLabelNameLogTicker : bool;
  ignoredSeriesWithTooLongLabelValueLogTicker : bool;
  gauges : list string;
  warnings : list Warning
}.

(** The variables as the package declares them. *)
Definition initial : Globals :=
  mkGlobals 40 (4 * 1024) 0 0 0 false false false [] [].

(** The name of the gauge of one reason:
    [vm_rows_ignored_total{reason=...}], the reason in quotes. *)
Definition gaugeName (reason : string) : string :=
  ("vm_rows_ignored_total{reason=" ++ String fastjson.dquote reason
     ++ String fastjson.dquote "}")%string.

Definition InitLabelsLimits (inputMaxLabelsPerTimeseries inputMaxLabelValueLen : Z)
  (g : Globals) : Globals :=
  mkGlobals inputMaxLabelsPerTimeseries inputMaxLabelValueLen
    (ignoredSeriesWithTooManyLabels g)
    (ignoredSeriesWithTooLongLabelName g)
    (ignoredSeriesWithTooLongLabelValue g)
    (ignoredSeriesWithTooManyLabelsLogTicker g)
    (ignoredSeriesWithTooLongLabelNameLogTicker g)
    (ignoredSeriesWithTooLongLabelValueLogTicker g)
    (gauges g ++ [gaugeName "too_many_labels";
                  gaugeName "too_long_label_name";
                  gaugeName "too_long_label_value"])
    (warnings g).

Definition trackIgnoredSeriesWithTooManyLabels (labels : list Label)
  (g : Globals) : Globals :=
  let n := Uint64_Add (ignoredSeriesWithTooManyLabels g) 1 in
  let tick := ignoredSeriesWithTooManyLabelsLogTicker g in
  mkGlobals (maxLabelsPerTimeseries g) (maxLabelValueLen g)
    n
    (ignoredSeriesWithTooLongLabelName g)
    (ignoredSeriesWithTooLongLabelValue g)
    false
    (ignoredSeriesWithTooLongLabelNameLogTicker g)
    (ignoredSeriesWithTooLongLabelValueLogTicker g)
    (gauges g)
    (if tick
     then warnings g ++ [TooManyLabelsWarning (len_ labels) labels
                           (maxLabelsPerTimeseries g)]
     else warnings g).

Definition trackIgnoredSeriesWithTooLongLabelValue (l : Label) (labels : list Label)
  (g : Globals) : Globals :=
  let n := Uint64_Add (ignoredSeriesWithTooLongLabelValue g) 1 in
  let tick := ignoredSeriesWithTooLongLabelValueLogTicker g in
  mkGlobals (maxLabelsPerTimeseries g) (maxLabelValueLen g)
    (ignoredSeriesWithTooManyLabels g)
    (ignoredSeriesWithTooLongLabelName g)
    n
    (ignoredSeriesWithTooManyLabelsLogTicker g)
    (ignoredSeriesWithTooLongLabelNameLogTicker g)
    false
    (gauges g)
    (if tick
     then warnings g ++ [TooLongLabelValueWarning l labels (len (Value l))
                           (maxLabelValueLen g)]
     else warnings g).

Definition trackIgnoredSeriesWithTooLongLabelName (l : Label) (labels : list Label)
  (g : Globals) : Globals :=
  let n := Uint64_Add (ignoredSeriesWithTooLongLabelName g) 1 in
  let tick := ignoredSeriesWithTooLongLabelNameLogTicker g in
  mkGlobals (maxLabelsPerTimeseries g) (maxLabelValueLen g)
    (ignoredSeriesWithTooManyLabels g)
    n
    (ignoredSeriesWithTooLongLabelValue g)
    (ignoredSeriesWithTooManyLabelsLogTicker g)
    false
    (ignoredSeriesWithTooLongLabelValueLogTicker g)
    (gauges g)
    (if tick
     then warnings g ++ [TooLongLabelNameWarning l labels (len (Name l))
                           maxLabelNameLen]
     else warnings g).

(** The [for _, l := range labels] loop of [ExceedingLabels], from the
    labels [rest] still to visit; [labels] is the whole slice. *)
Fixpoint exceedingLoop (rest labels : list Label) (g : Globals) : bool * Globals :=
  match rest with
  | [] => (false, g)
  | l :: rest =>
      if len (Name l) >? maxLabelNameLen then
        (true, trackIgnoredSeriesWithTooLongLabelName l labels g)
      else if len (Value l) >? maxLabelValueLen g then
        (true, trackIgnoredSeriesWithTooLongLabelValue l labels g)
      else exceedingLoop rest labels g
  end.

Definition ExceedingLabels (labels : list Label) (g : Globals) : bool * Globals :=
  if len_ labels >? maxLabelsPerTimeseries g then
    (true, trackIgnoredSeriesWithTooManyLabels labels g)
  else exceedingLoop labels labels g.

End storage.

(** ** What a flattening emits *)

Import logstorage.

(** The fields that flattening [v] under the prefix [prefixBuf] appends,
    and the bytes it appends to the backing buffer. *)
Definition emitted (prefixBuf : list byte) (v : fastjson.Value) : list Field :=
  fst (fst (appendLogFields [] [] prefixBuf v)).

Definition written (prefixBuf : list byte) (v : fastjson.Value) : list byte :=
  snd (fst (appendLogFields [] [] prefixBuf v)).

(** A step on the three values of the visitor that only appends to the
    fields and to the backing buffer, what it appends depending on the
    prefix alone, and that hands the prefix back as it got it. *)
Definition framed (g : acc -> acc) : Prop :=
  forall dst dstBuf prefixBuf,
    g (dst, dstBuf, prefixBuf)
    = (dst ++ fst (fst (g ([], [], prefixBuf))),
       dstBuf ++ snd (fst (g ([], [], prefixBuf))),
       prefixBuf).

(** A value that makes one field: neither null nor an object. *)
Definition isLeaf (v : fastjson.Value) : bool :=
  match v with
  | fastjson.VNull | fastjson.VObject _ => false
  | _ => true
  end.

(** The text of the value of the field a leaf makes. *)
Definition leafText (v : fastjson.Value) : string :=
  match v with
  | fastjson.VString _ => bytesutil.ToUnsafeString (fastjson.GetStringBytes v)
  | _ => bytesutil.ToUnsafeString (fastjson.MarshalTo v [])
  end.

(** The decoded key [Visit] hands to the visitor. *)
Definition key (k : string) : list byte := s2b (fastjson.unescapeStringBestEffort k).

(** The number of leaves below an object (0 for any other value). *)
Fixpoint leaves (v : fastjson.Value) : nat :=
  match v with
  | fastjson.VObject o =>
      fold_right (fun kv n =>
        (match snd kv with
         | fastjson.VNull => 0
         | fastjson.VObject _ => leaves (snd kv)
         | _ => 1
         end + n)%nat) 0%nat o
  | _ => 0%nat
  end.

(** The bytes of a field in the backing buffer: its value, then its name. *)
Definition fieldBytes (f : Field) : list byte := s2b (Value f) ++ s2b (Name f).

(** A step on a buffer that only appends to it. *)
Definition appends (g : list byte -> list byte) : Prop :=
  forall dst, g dst = dst ++ g [].

(** ** Sample documents *)

Definition flatDoc : string :=
  reader.text "{'a':{'b':'c'},'d':1,'e':null,'f':[1,2],'g':true}".

Definition flatDocMembers : list (string * fastjson.Value) :=
  [("a", fastjson.VObject [("b", fastjson.VString "c")]);
   ("d", fastjson.VNumber "1");
   ("e", fastjson.VNull);
   ("f", fastjson.VArray [fastjson.VNumber "1"; fastjson.VNumber "2"]);
   ("g", fastjson.VTrue)].

Definition flatDocFields : list Field :=
  [mkField "a.b" "c"; mkField "d" "1"; mkField "f" "[1,2]"; mkField "g" "true"].

Definition nestedDoc : string := reader.text "{'x':{'y':{'z':'v'}}}".

Definition nestedDocMembers : list (string * fastjson.Value) :=
  [("x", fastjson.VObject [("y", fastjson.VObject [("z", fastjson.VString "v")])])].

Definition clashDoc : string := reader.text "{'a.b':1,'a':{'b':2}}".

Definition clashDocMembers : list (string * fastjson.Value) :=
  [("a.b", fastjson.VNumber "1");
   ("a", fastjson.VObject [("b", fastjson.VNumber "2")])].

(** A parser that holds the field of an earlier message. *)
Definition usedParser : JSONParser :=
  fst (parseLogMessage reader.Parse newJSONParser (reader.text "{'a':'b'}") "" true).

(** ** Label limits: violations and counters *)

Module limits.
Import prompbmarshal storage.
Local Open Scope Z_scope.

(** A label within the two length limits. *)
Definition within (g : Globals) (l : Label) : Prop :=
  len (Name l) <= maxLabelNameLen /\ len (Value l) <= maxLabelValueLen g.

(** A label set that breaks one of the three limits. *)
Definition violates (g : Globals) (labels : list Label) : Prop :=
  len_ labels > maxLabelsPerTimeseries g
  \/ exists l, In l labels
               /\ (len (Name l) > maxLabelNameLen
                   \/ len (Value l) > maxLabelValueLen g).

(** The three kinds of violation, each with its counter. *)
Inductive Kind : Set := TooManyLabels | LabelNameTooLong | LabelValueTooLong.

Definition counter (k : Kind) (g : Globals) : Z :=
  match k with
  | TooManyLabels => ignoredSeriesWithTooManyLabels g
  | LabelNameTooLong => ignoredSeriesWithTooLongLabelName g
  | LabelValueTooLong => ignoredSeriesWithTooLongLabelValue g
  end.

(** From [g] to [g'] the counter of [k] took one [Add(1)], which is one
    more unless the counter was at its last value, the two other counters
    and the limits did not move. *)
Definition bumped (k : Kind) (g g' : Globals) : Prop :=
  counter k g' = Uint64_Add (counter k g) 1
  /\ (0 <= counter k g < 2 ^ 64 - 1 -> counter k g' = counter k g + 1)
  /\ (forall k', k' <> k -> counter k' g' = counter k' g)
  /\ maxLabelsPerTimeseries g' = maxLabelsPerTimeseries g
  /\ maxLabelValueLen g' = maxLabelValueLen g.

(** A string of [n] times the character [c]. *)
Fixpoint replicate (n : nat) (c : ascii) : string :=
  match n with
  | O => ""
  | S n => String c (replicate n c)
  end.

(** [n] labels, each with a name of [nameLen] and a value of [valueLen]
    characters. *)
Definition labelSet (n nameLen valueLen : nat) : list Label :=
  repeat (mkLabel (replicate nameLen "n") (replicate valueLen "v")) n.

End limits.

(** ** Field lists, the pool of parsers and runs of calls *)

(** A field with [prefix] put before its name. *)
Definition withPrefix (prefix : string) (f : Field) : Field :=
  mkField (prefix ++ Name f) (Value f).

(** The number of fields called [name]. *)
Definition countName (name : string) (fields : list Field) : nat :=
  count_occ string_dec (map Name fields) name.

(** [RenameField(oldName, newName)] called [n] times. *)
Definition RenameFieldTimes (n : nat) (p : JSONParser) (oldName newName : string)
  : JSONParser :=
  Nat.iter n (fun p => RenameField p oldName newName) p.

Module parserPool.

(** [sync.Pool] of the Go library, as the items it holds.  [Get] hands out
    one of them and takes it from the pool, or hands out nothing: [pick]
    stands for the choice the pool makes, which the caller does not
    control. *)
Definition Pool : Set := list JSONParser.

Definition Get (pick : option nat) (pool : Pool) : option JSONParser * Pool :=
  match pick with
  | None => (None, pool)
  | Some i =>
      match nth_error pool i with
      | Some v => (Some v, firstn i pool ++ skipn (S i) pool)
      | None => (None, pool)
      end
  end.

Definition Put (v : JSONParser) (pool : Pool) : Pool := v :: pool.

(** The pool may drop items at any time. *)
Definition Drop (i : nat) (pool : Pool) : Pool := firstn i pool ++ skipn (S i) pool.

Definition GetJSONParser (pick : option nat) (pool : Pool) : JSONParser * Pool :=
  let '(v, pool) := Get pick pool in
  match v with
  | None => (newJSONParser, pool)
  | Some p => (p, pool)
  end.

Definition PutJSONParser (p : JSONParser) (pool : Pool) : Pool :=
  let p := reset p in
  Put p pool.

(** The pools a program can reach from the empty pool of the package:
    parsers are put back in any state, taken out and dropped. *)
Inductive reachable : Pool -> Prop :=
| reachable_empty : reachable []
| reachable_Put p pool : reachable pool -> reachable (PutJSONParser p pool)
| reachable_Get pick pool : reachable pool -> reachable (snd (GetJSONParser pick pool))
| reachable_Drop i pool : reachable pool -> reachable (Drop i pool).

End parserPool.

Module runs.
Import prompbmarshal storage limits.
Local Open Scope Z_scope.

(** [ExceedingLabels] called on one label set after the other, with no
    tick of a ticker in between: the answers and the variables after the
    last call. *)
Fixpoint ExceedingLabelsEach (sets : list (list Label)) (g : Globals)
  : list bool * Globals :=
  match sets with
  | [] => ([], g)
  | labels :: rest =>
      let '(b, g) := ExceedingLabels labels g in
      let '(bs, g) := ExceedingLabelsEach rest g in
      (b :: bs, g)
  end.

(** The three counters together: the series ignored so far. *)
Definition ignored (g : Globals) : Z :=
  counter TooManyLabels g + counter LabelNameTooLong g
  + counter LabelValueTooLong g.

(** The number of refusals among the answers. *)
Definition refusals (answers : list bool) : Z :=
  Z.of_nat (count_occ bool_dec answers true).

Definition warningKind (w : Warning) : Kind :=
  match w with
  | TooManyLabelsWarning _ _ _ => TooManyLabels
  | TooLongLabelNameWarning _ _ _ _ => LabelNameTooLong
  | TooLongLabelValueWarning _ _ _ _ => LabelValueTooLong
  end.

Definition Kind_eqb (a b : Kind) : bool :=
  match a, b with
  | TooManyLabels, TooManyLabels
  | LabelNameTooLong, LabelNameTooLong
  | LabelValueTooLong, LabelValueTooLong => true
  | _, _ => false
  end.

(** The number of warnings of one kind in the log. *)
Definition logged (k : Kind) (g : Globals) : nat :=
  List.length (filter (fun w => Kind_eqb (warningKind w) k) (warnings g)).

(** Whether a tick waits in the ticker of one kind. *)
Definition ticker (k : Kind) (g : Globals) : bool :=
  match k with
  | TooManyLabels => ignoredSeriesWithTooManyLabelsLogTicker g
  | LabelNameTooLong => ignoredSeriesWithTooLongLabelNameLogTicker g
  | LabelValueTooLong => ignoredSeriesWithTooLongLabelValueLogTicker g
  end.

(** A warning about the call of [ExceedingLabels] on [labels] under the
    limits of [g]: it shows [labels] itself, the limit in force and the
    number that is over it.  A warning for too many labels reports the
    number of labels; one for a name or a value reports the first label
    of [labels] that is not within the limits, of a set that has not too
    many labels, and the length of its name, or of its value when its
    name is not too long. *)
Definition reports (g : Globals) (labels : list Label) (w : Warning) : Prop :=
  match w with
  | TooManyLabelsWarning n shown limit =>
      shown = labels /\ n = len_ labels
      /\ limit = maxLabelsPerTimeseries g /\ n > limit
  | TooLongLabelNameWarning l shown n limit =>
      shown = labels /\ len_ labels <= maxLabelsPerTimeseries g
      /\ (exists pre post, labels = pre ++ l :: post /\ Forall (within g) pre)
      /\ n = len (Name l) /\ limit = maxLabelNameLen /\ n > limit
  | TooLongLabelValueWarning l shown n limit =>
      shown = labels /\ len_ labels <= maxLabelsPerTimeseries g
      /\ (exists pre post, labels = pre ++ l :: post /\ Forall (within g) pre)
      /\ len (Name l) <= maxLabelNameLen
      /\ n = len (Value l) /\ limit = maxLabelValueLen g /\ n > limit
  end.

End runs.

(** ** Induction on value trees *)

Section ValueInd.
Import fastjson.

Variable P : Value -> Prop.
Hypothesis HNull : P VNull.
Hypothesis HObject : forall kvs, Forall (fun kv => P (snd kv)) kvs -> P (VObject kvs).
Hypothesis HArray : forall a, Forall P a -> P (VArray a).
Hypothesis HString : forall s, P (VString s).
Hypothesis HNumber : forall s, P (VNumber s).
Hypothesis HTrue : P VTrue.
Hypothesis HFalse : P VFalse.

Fixpoint Value_tree_ind (v : Value) : P v :=
  match v with
  | VNull => HNull
  | VObject kvs =>
      HObject kvs
        ((fix members (l : list (string * Value)) : Forall (fun kv => P (snd kv)) l :=
            match l with
            | [] => Forall_nil _
            | kv :: l' => Forall_cons kv (Value_tree_ind (snd kv)) (members l')
            end) kvs)
  | VArray a =>
      HArray a
        ((fix elements (l : list Value) : Forall P l :=
            match l with
            | [] => Forall_nil _
            | x :: l' => Forall_cons x (Value_tree_ind x) (elements l')
            end) a)
  | VString s => HString s
  | VNumber s => HNumber s
  | VTrue => HTrue
  | VFalse => HFalse
  end.

End ValueInd.

(** ** Slices and strings *)

Lemma skipn_length_app {A : Type} (a b : list A) : skipn (List.length a) (a ++ b) = b.
Proof. induction a as [|x a IH]; simpl; auto. Qed.

Lemma firstn_length_app {A : Type} (a b : list A) : firstn (List.length a) (a ++ b) = a.
Proof. induction a as [|x a IH]; simpl; [destruct b|]; congruence. Qed.

Lemma string_app_assoc (a b c : string) : ((a ++ b) ++ c = a ++ (b ++ c))%string.
Proof. induction a as [|x a IH]; simpl; congruence. Qed.

Lemma ToUnsafeString_app (a b : list byte) :
  bytesutil.ToUnsafeString (a ++ b)
  = (bytesutil.ToUnsafeString a ++ bytesutil.ToUnsafeString b)%string.
Proof.
  unfold bytesutil.ToUnsafeString, string_of_list_byte.
  induction a as [|x a IH]; simpl; [reflexivity|].
  now rewrite IH.
Qed.

Lemma ToUnsafeString_s2b (s : string) : bytesutil.ToUnsafeString (s2b s) = s.
Proof. apply string_of_list_byte_of_string. Qed.

Lemma joined_appends {A : Type} (f : A -> list byte -> list byte) (l : list A) :
  Forall (fun x => appends (f x)) l -> appends (fastjson.joined f l).
Proof.
  induction 1 as [|x rest Hx _ IH]; intro dst; simpl.
  - now rewrite app_nil_r.
  - destruct rest as [|y rest']; [apply Hx|].
    rewrite IH, (IH (_ ++ _)), Hx. now rewrite <- !app_assoc.
Qed.

(** The serializer only appends. *)
Lemma MarshalTo_app (v : fastjson.Value) : appends (fastjson.MarshalTo v).
Proof.
  induction v as [|kvs IH|a IH|s|s| |] using Value_tree_ind; intro dst;
    cbn [fastjson.MarshalTo]; try reflexivity.
  - match goal with
    | |- context [fastjson.joined ?f kvs _] =>
        assert (HF : appends (fastjson.joined f kvs))
    end.
    { apply joined_appends. eapply Forall_impl; [|exact IH].
      intros kv Hkv d. cbn beta zeta.
      rewrite Hkv, (Hkv (([] ++ _) ++ _)). simpl. now rewrite <- !app_assoc. }
    rewrite HF, (HF ([] ++ _)). simpl. now rewrite <- !app_assoc.
  - pose proof (joined_appends _ _ IH) as HF.
    rewrite HF, (HF ([] ++ _)). simpl. now rewrite <- !app_assoc.
  - simpl. now rewrite <- app_assoc.
Qed.

(** ** The flattening only appends, and hands the prefix back *)

Lemma framed_id : framed (fun st => st).
Proof. intros dst dstBuf prefixBuf; simpl. now rewrite !app_nil_r. Qed.

Lemma framed_compose (g1 g2 : acc -> acc) :
  framed g1 -> framed g2 -> framed (fun st => g2 (g1 st)).
Proof.
  intros H1 H2 dst dstBuf prefixBuf.
  rewrite (H1 dst dstBuf), (H1 [] []). simpl.
  rewrite (H2 (dst ++ _)), (H2 (fst _)). simpl.
  now rewrite !app_assoc.
Qed.

Lemma Visit_framed (f : list byte -> fastjson.Value -> acc -> acc)
  (o : list (string * fastjson.Value)) :
  Forall (fun kv => framed (f (key (fst kv)) (snd kv))) o -> framed (Visit o f).
Proof.
  unfold Visit.
  induction 1 as [|kv o Hkv _ IH].
  - apply framed_id.
  - exact (framed_compose _ _ Hkv IH).
Qed.

(** [appendLogFields] visits the members of [v.GetObject()]: nothing
    when [v] is not an object. *)
Lemma appendLogFields_GetObject (dst : list Field) (dstBuf prefixBuf : list byte)
  (v : fastjson.Value) :
  appendLogFields dst dstBuf prefixBuf v
  = appendLogFields dst dstBuf prefixBuf (fastjson.VObject (fastjson.GetObject v)).
Proof. destruct v; reflexivity. Qed.

Lemma appendLogField_eq (dst : list Field) (dstBuf prefixBuf k value : list byte) :
  appendLogField dst dstBuf prefixBuf k value
  = (dst ++ [mkField (bytesutil.ToUnsafeString (prefixBuf ++ k))
                     (bytesutil.ToUnsafeString value)],
     dstBuf ++ prefixBuf ++ k).
Proof.
  unfold appendLogField.
  now rewrite <- (app_assoc dstBuf), skipn_length_app.
Qed.

Lemma appendLogFields_framed (v : fastjson.Value) :
  framed (fun st => let '(dst, dstBuf, prefixBuf) := st in
                    appendLogFields dst dstBuf prefixBuf v).
Proof.
  induction v as [|kvs IH|a _|s|s| |] using Value_tree_ind;
    try solve [intros dst dstBuf prefixBuf; simpl; rewrite !app_nil_r; reflexivity].
  intros dst dstBuf prefixBuf. cbn [appendLogFields].
  match goal with
  | |- Visit kvs ?f _ = _ => assert (HV : framed (Visit kvs f))
  end.
  { apply Visit_framed. eapply Forall_impl; [|exact IH].
    intros [k v] Hv d dB pB. simpl in Hv.
    destruct v; cbn [fst snd fastjson.Type_of];
      rewrite ?appendLogField_eq, ?(MarshalTo_app _ dB), ?skipn_length_app;
      cbn [app List.length skipn]; rewrite ?app_nil_r; cbn [fst snd];
      try solve [rewrite <- ?app_assoc; reflexivity].
    pose proof (Hv d dB ((pB ++ key k) ++ s2b ".")) as Hd.
    pose proof (Hv [] [] ((pB ++ key k) ++ s2b ".")) as H0.
    cbn beta iota zeta in Hd, H0.
    set (r := appendLogFields [] [] ((pB ++ key k) ++ s2b ".") _) in *.
    clearbody r. destruct r as [[F B] pb'].
    cbn [fst snd app] in *. injection H0 as ->.
    rewrite Hd. now rewrite <- app_assoc, !firstn_length_app. }
  exact (HV dst dstBuf prefixBuf).
Qed.

(** [appendLogFields] appends [emitted] to the fields and [written] to
    the backing buffer, and returns the prefix buffer it was given. *)
Lemma appendLogFields_frame (dst : list Field) (dstBuf prefixBuf : list byte)
  (v : fastjson.Value) :
  appendLogFields dst dstBuf prefixBuf v
  = (dst ++ emitted prefixBuf v, dstBuf ++ written prefixBuf v, prefixBuf).
Proof. exact (appendLogFields_framed v dst dstBuf prefixBuf). Qed.

Lemma appendLogFields_app (dst : list Field) (dstBuf prefixBuf : list byte)
  (o1 o2 : list (string * fastjson.Value)) :
  appendLogFields dst dstBuf prefixBuf (fastjson.VObject (o1 ++ o2))
  = let '(dst, dstBuf, prefixBuf) :=
      appendLogFields dst dstBuf prefixBuf (fastjson.VObject o1) in
    appendLogFields dst dstBuf prefixBuf (fastjson.VObject o2).
Proof.
  cbn [appendLogFields]. unfold Visit. rewrite fold_left_app.
  match goal with
  | |- fold_left ?F o2 ?st = _ => destruct st as [[d b] pb]
  end.
  reflexivity.
Qed.

(** The members of an object are flattened one after the other, each on
    its own. *)
Lemma emitted_app (prefixBuf : list byte) (o1 o2 : list (string * fastjson.Value)) :
  emitted prefixBuf (fastjson.VObject (o1 ++ o2))
  = emitted prefixBuf (fastjson.VObject o1) ++ emitted prefixBuf (fastjson.VObject o2).
Proof.
  unfold emitted at 1. rewrite appendLogFields_app.
  rewrite (appendLogFields_frame [] [] prefixBuf (fastjson.VObject o1)).
  rewrite appendLogFields_frame. reflexivity.
Qed.

Lemma emitted_members (prefixBuf : list byte) (o : list (string * fastjson.Value)) :
  emitted prefixBuf (fastjson.VObject o)
  = flat_map (fun kv => emitted prefixBuf (fastjson.VObject [kv])) o.
Proof.
  induction o as [|kv o IH]; [reflexivity|].
  change (kv :: o) with ([kv] ++ o).
  rewrite emitted_app, IH. reflexivity.
Qed.

Lemma emitted_null (prefixBuf : list byte) (k : string) :
  emitted prefixBuf (fastjson.VObject [(k, fastjson.VNull)]) = [].
Proof. reflexivity. Qed.

(** The visitor on a member that is an object: the key and a dot are
    pushed on the prefix, the object is flattened, the prefix is cut back. *)
Lemma appendLogFields_object_member (dst : list Field) (dstBuf prefixBuf : list byte)
  (k : string) (o : list (string * fastjson.Value)) :
  appendLogFields dst dstBuf prefixBuf (fastjson.VObject [(k, fastjson.VObject o)])
  = let '(dst, dstBuf, prefixBuf') :=
      appendLogFields dst dstBuf ((prefixBuf ++ key k) ++ s2b ".")
        (fastjson.VObject o) in
    (dst, dstBuf, firstn (List.length prefixBuf) prefixBuf').
Proof. reflexivity. Qed.

Lemma emitted_object (prefixBuf : list byte) (k : string)
  (o : list (string * fastjson.Value)) :
  emitted prefixBuf (fastjson.VObject [(k, fastjson.VObject o)])
  = emitted (prefixBuf ++ key k ++ s2b ".") (fastjson.VObject o).
Proof.
  unfold emitted at 1.
  rewrite appendLogFields_object_member, appendLogFields_frame.
  cbn [fst snd app]. rewrite <- app_assoc. reflexivity.
Qed.

Lemma emitted_leaf (prefixBuf : list byte) (k : string) (v : fastjson.Value) :
  isLeaf v = true ->
  emitted prefixBuf (fastjson.VObject [(k, v)])
  = [mkField (bytesutil.ToUnsafeString (prefixBuf ++ key k)) (leafText v)].
Proof.
  intro Hleaf. unfold emitted.
  destruct v; try discriminate Hleaf;
    cbn [appendLogFields Visit fold_left fst snd fastjson.Type_of];
    rewrite appendLogField_eq; reflexivity.
Qed.

(** Every name emitted under a prefix starts with that prefix. *)
Lemma emitted_Name (v : fastjson.Value) :
  forall prefixBuf f, In f (emitted prefixBuf v) ->
    exists rest, Name f = (bytesutil.ToUnsafeString prefixBuf ++ rest)%string.
Proof.
  induction v as [|kvs IH|a _|s|s| |] using Value_tree_ind;
    intros prefixBuf f Hin; try contradiction.
  rewrite emitted_members in Hin. apply in_flat_map in Hin.
  destruct Hin as [[k v] [Hkv Hin]].
  rewrite Forall_forall in IH. specialize (IH _ Hkv). simpl in IH.
  destruct (isLeaf v) eqn:Hleaf.
  - rewrite (emitted_leaf _ _ _ Hleaf) in Hin. destruct Hin as [<-|[]].
    cbn [Name]. rewrite ToUnsafeString_app. eauto.
  - destruct v; try discriminate Hleaf; [contradiction|].
    rewrite emitted_object in Hin. apply IH in Hin. destruct Hin as [rest ->].
    rewrite !ToUnsafeString_app, !string_app_assoc. eauto.
Qed.

(** One field per leaf. *)
Lemma emitted_length (v : fastjson.Value) :
  forall prefixBuf, List.length (emitted prefixBuf v) = leaves v.
Proof.
  induction v as [|kvs IH|a _|s|s| |] using Value_tree_ind;
    intro prefixBuf; try reflexivity.
  rewrite emitted_members. cbn [leaves].
  induction IH as [|[k v] o Hv _ IHo]; [reflexivity|].
  cbn [flat_map fold_right snd]. rewrite length_app, IHo. f_equal.
  destruct v; try reflexivity.
  rewrite emitted_object. apply Hv.
Qed.

(** ** The backing buffer *)

Lemma s2b_ToUnsafeString (b : list byte) : s2b (bytesutil.ToUnsafeString b) = b.
Proof. apply list_byte_of_string_of_list_byte. Qed.

Lemma written_app (prefixBuf : list byte) (o1 o2 : list (string * fastjson.Value)) :
  written prefixBuf (fastjson.VObject (o1 ++ o2))
  = written prefixBuf (fastjson.VObject o1) ++ written prefixBuf (fastjson.VObject o2).
Proof.
  unfold written at 1. rewrite appendLogFields_app.
  rewrite (appendLogFields_frame [] [] prefixBuf (fastjson.VObject o1)).
  rewrite appendLogFields_frame. reflexivity.
Qed.

Lemma written_object (prefixBuf : list byte) (k : string)
  (o : list (string * fastjson.Value)) :
  written prefixBuf (fastjson.VObject [(k, fastjson.VObject o)])
  = written (prefixBuf ++ key k ++ s2b ".") (fastjson.VObject o).
Proof.
  unfold written at 1.
  rewrite appendLogFields_object_member, appendLogFields_frame.
  cbn [fst snd app]. rewrite <- app_assoc. reflexivity.
Qed.

Lemma written_leaf (prefixBuf : list byte) (k : string) (v : fastjson.Value) :
  isLeaf v = true ->
  written prefixBuf (fastjson.VObject [(k, v)])
  = s2b (leafText v) ++ prefixBuf ++ key k.
Proof.
  intro Hleaf. unfold written, leafText.
  destruct v; try discriminate Hleaf;
    rewrite s2b_ToUnsafeString;
    cbn [appendLogFields Visit fold_left fst snd fastjson.Type_of];
    rewrite appendLogField_eq; reflexivity.
Qed.

(** The bytes written are those of the fields emitted, field after field:
    each name and each value is a piece of the backing buffer. *)
Lemma written_fieldBytes (v : fastjson.Value) :
  forall prefixBuf,
    written prefixBuf v = flat_map fieldBytes (emitted prefixBuf v).
Proof.
  induction v as [|kvs IH|a _|s|s| |] using Value_tree_ind;
    intro prefixBuf; try reflexivity.
  induction IH as [|[k v] o Hv _ IHo]; [reflexivity|].
  change ((k, v) :: o) with ([(k, v)] ++ o).
  rewrite written_app, emitted_app, flat_map_app, IHo. f_equal.
  destruct (isLeaf v) eqn:Hleaf.
  - rewrite (written_leaf _ _ _ Hleaf), (emitted_leaf _ _ _ Hleaf).
    cbn [flat_map]. unfold fieldBytes. cbn [Name Value].
    rewrite s2b_ToUnsafeString, app_nil_r. reflexivity.
  - destruct v; try discriminate Hleaf; [reflexivity|].
    rewrite written_object, emitted_object. apply Hv.
Qed.

(** ** What a successful and a failed [parseLogMessage] leave behind *)

Lemma Type_eqb_eq (a b : fastjson.Type_) : fastjson.Type_eqb a b = true <-> a = b.
Proof. destruct a, b; simpl; split; intro H; try reflexivity; discriminate H. Qed.

Lemma parseLogMessage_ok (Parse : fastjson.Tokenizer) (p : JSONParser)
  (msg prefix : string) (resetBuf : bool) (o : list (string * fastjson.Value)) :
  Parse msg = inl (fastjson.VObject o) ->
  parseLogMessage Parse p msg prefix resetBuf
  = (mkJSONParser (emitted (s2b prefix) (fastjson.VObject o))
       ((if resetBuf then [] else buf p) ++ written (s2b prefix) (fastjson.VObject o))
       (s2b prefix),
     None).
Proof.
  intro HParse. unfold parseLogMessage. rewrite HParse.
  cbn [fastjson.Type_of fastjson.Type_eqb negb].
  destruct resetBuf; cbn [reset resetNobuf Fields buf prefixBuf firstn app];
    rewrite appendLogFields_frame; reflexivity.
Qed.

Lemma parseLogMessage_error (Parse : fastjson.Tokenizer) (p p' : JSONParser)
  (msg prefix : string) (resetBuf : bool) (e : error) :
  parseLogMessage Parse p msg prefix resetBuf = (p', Some e) -> p' = p.
Proof.
  unfold parseLogMessage.
  destruct (Parse msg) as [v|err]; [|intro H; now inversion H].
  destruct (negb _); [intro H; now inversion H|].
  destruct (appendLogFields _ _ _ _) as [[? ?] ?]. discriminate.
Qed.

(** After a successful call the backing buffer is made of the bytes of
    the fields, after what it held before when it was not reset. *)
Lemma parseLogMessage_buf (Parse : fastjson.Tokenizer) (p p' : JSONParser)
  (msg prefix : string) (resetBuf : bool) :
  parseLogMessage Parse p msg prefix resetBuf = (p', None) ->
  buf p' = (if resetBuf then [] else buf p) ++ flat_map fieldBytes (Fields p').
Proof.
  unfold parseLogMessage.
  destruct (Parse msg) as [v|err]; [|discriminate].
  destruct (negb _); [discriminate|].
  rewrite appendLogFields_frame. intro H. injection H as <-.
  cbn [buf Fields]. rewrite written_fieldBytes.
  destruct resetBuf; reflexivity.
Qed.

(** ** Flattening *)

(** C1: for every parse of the document
    [{a:{b:c}, d:1, e:null, f:[1,2], g:true}] with the empty prefix, whatever
    order the tokenizer visits the members in, the fields are, up to that
    order, a.b = c, d = 1, f = [1,2] and g = true: the nested object is
    flattened under a dotted name, the number, the array and the boolean
    are given as their JSON text, the string is decoded, and the null
    member e makes no field.  In the order of the text the fields come in
    the order listed. *)
Theorem flattening_of_flatDoc (Parse : fastjson.Tokenizer) (p : JSONParser)
  (msg : string) (resetBuf : bool) (o : list (string * fastjson.Value)) :
  Parse msg = inl (fastjson.VObject o) ->
  Permutation o flatDocMembers ->
  exists p',
    parseLogMessage Parse p msg "" resetBuf = (p', None)
    /\ Permutation (Fields p') flatDocFields
    /\ (forall f, In f (Fields p') -> Name f <> "e")
    /\ (o = flatDocMembers -> Fields p' = flatDocFields).
Proof.
  intros HParse Hperm. rewrite (parseLogMessage_ok _ _ _ _ _ _ HParse).
  eexists; split; [reflexivity|]. cbn [Fields].
  assert (HP : Permutation (emitted (s2b "") (fastjson.VObject o)) flatDocFields).
  { rewrite emitted_members.
    apply (Permutation_flat_map
             (fun kv => emitted (s2b "") (fastjson.VObject [kv]))) in Hperm.
    exact Hperm. }
  split; [exact HP|]. split.
  - intros f Hin. apply (Permutation_in _ HP) in Hin.
    repeat (destruct Hin as [<-|Hin]; [discriminate|]). contradiction.
  - intros ->. reflexivity.
Qed.

Lemma flattening_of_flatDoc_witness :
  reader.Parse flatDoc = inl (fastjson.VObject flatDocMembers)
  /\ exists p',
       parseLogMessage reader.Parse usedParser flatDoc "" true = (p', None)
       /\ Permutation (Fields p') flatDocFields
       /\ (forall f, In f (Fields p') -> Name f <> "e")
       /\ Fields p' = flatDocFields.
Proof.
  split; [vm_compute; reflexivity|].
  destruct (flattening_of_flatDoc reader.Parse usedParser flatDoc true
              flatDocMembers)
    as (p' & Hp' & Hperm & He & Hfields).
  - vm_compute; reflexivity.
  - apply Permutation_refl.
  - exists p'. repeat split; auto.
Defined.

(** ** Errors *)

(** C5: [parseLogMessage] fails with [MalformedInput] exactly when the
    tokenizer rejects the text, and then carries the tokenizer's error; it
    fails with [UnexpectedRootType] exactly when the tokenizer accepts the
    text and the value is not an object, and then carries the type of that
    value.  A failed call produces no field: it returns the parser as it
    was given.  With the reader as tokenizer, the text [not json{] is
    malformed and [[1,2,3]] has the root type array. *)
Theorem parseLogMessage_errors (Parse : fastjson.Tokenizer) (p : JSONParser)
  (msg prefix : string) (resetBuf : bool) :
  (forall err,
      (exists p', parseLogMessage Parse p msg prefix resetBuf
                  = (p', Some (MalformedInput err)))
      <-> Parse msg = inr err)
  /\ (forall t,
         (exists p', parseLogMessage Parse p msg prefix resetBuf
                     = (p', Some (UnexpectedRootType t)))
         <-> exists v, Parse msg = inl v /\ fastjson.Type_of v = t
                       /\ t <> fastjson.TypeObject)
  /\ (forall p' e, parseLogMessage Parse p msg prefix resetBuf = (p', Some e)
                   -> p' = p)
  /\ (exists err, parseLogMessage reader.Parse p "not json{" prefix resetBuf
                  = (p, Some (MalformedInput err)))
  /\ parseLogMessage reader.Parse p "[1,2,3]" prefix resetBuf
     = (p, Some (UnexpectedRootType fastjson.TypeArray))
  /\ Error (UnexpectedRootType fastjson.TypeArray)
     = "expecting json dictionary; got array".
Proof.
  split; [|split; [|split; [|split; [|split]]]].
  - intro err. unfold parseLogMessage. split.
    + intros [p' H]. destruct (Parse msg) as [v|err0]; [|now inversion H].
      destruct (negb _); [discriminate H|].
      destruct (appendLogFields _ _ _ _) as [[? ?] ?]. discriminate H.
    + intros ->. eauto.
  - intro t. unfold parseLogMessage. split.
    + intros [p' H]. destruct (Parse msg) as [v|err0]; [|discriminate H].
      destruct (negb _) eqn:Hneg.
      * inversion H; subst. exists v. repeat split.
        intro Heq. rewrite Heq in Hneg. discriminate Hneg.
      * destruct (appendLogFields _ _ _ _) as [[? ?] ?]. discriminate H.
    + intros (v & -> & <- & Hne).
      destruct (fastjson.Type_eqb _ _) eqn:Heqb.
      * apply Type_eqb_eq in Heqb. contradiction.
      * simpl. eauto.
  - intros p' e. apply parseLogMessage_error.
  - eexists. reflexivity.
  - reflexivity.
  - reflexivity.
Qed.

Lemma parseLogMessage_errors_witness :
  (exists p', parseLogMessage reader.Parse usedParser "{" "" true
              = (p', Some (MalformedInput "cannot parse JSON: missing '}'")))
  /\ (exists p', parseLogMessage reader.Parse usedParser "42" "" true
                 = (p', Some (UnexpectedRootType fastjson.TypeNumber)))
  /\ fst (parseLogMessage reader.Parse usedParser "[1,2,3]" "" true) = usedParser.
Proof.
  destruct (parseLogMessage_errors reader.Parse usedParser "{" "" true)
    as (Hmalformed & _).
  destruct (parseLogMessage_errors reader.Parse usedParser "42" "" true)
    as (_ & Hroot & _).
  destruct (parseLogMessage_errors reader.Parse usedParser "[1,2,3]" "" true)
    as (_ & _ & Hsame & _).
  split; [|split].
  - apply Hmalformed. reflexivity.
  - apply Hroot. exists (fastjson.VNumber "42").
    split; [reflexivity|]. split; [reflexivity|discriminate].
  - apply (Hsame _ (UnexpectedRootType fastjson.TypeArray)). reflexivity.
Defined.

(** C6 as stated fails: a failed call does not clear the fields.  The
    parser that holds the field a = b of an earlier message still holds it
    after the malformed text [not json{] was refused. *)
Lemma failed_parse_keeps_fields :
  exists p' err,
    parseLogMessage reader.Parse usedParser "not json{" "" true
    = (p', Some (MalformedInput err))
    /\ Fields p' = [mkField "a" "b"]
    /\ Fields p' <> [].
Proof.
  eexists. eexists. split; [reflexivity|]. split; [reflexivity|]. discriminate.
Qed.

(** C6, amended: when a call of [parseLogMessage] fails, the parser is
    exactly what it was before the call: its fields, its backing buffer
    and its prefix buffer are those it had (nothing is cleared, and
    nothing of the refused text is in them). *)
Theorem failed_parse_leaves_parser (Parse : fastjson.Tokenizer) (p p' : JSONParser)
  (msg prefix : string) (resetBuf : bool) (e : error) :
  parseLogMessage Parse p msg prefix resetBuf = (p', Some e) ->
  p' = p /\ Fields p' = Fields p /\ buf p' = buf p /\ prefixBuf p' = prefixBuf p.
Proof.
  intro H. apply parseLogMessage_error in H. subst p'. repeat split.
Qed.

Lemma failed_parse_leaves_parser_witness :
  let p' := fst (parseLogMessage reader.Parse usedParser "not json{" "" true) in
  p' = usedParser /\ Fields p' = Fields usedParser /\ buf p' = buf usedParser
  /\ prefixBuf p' = prefixBuf usedParser.
Proof.
  exact (failed_parse_leaves_parser reader.Parse usedParser _ "not json{" "" true
           (MalformedInput "cannot parse JSON: unexpected value found") eq_refl).
Defined.

(** ** The prefix buffer *)

Lemma length_s2b (s : string) : List.length (s2b s) = String.length s.
Proof.
  unfold s2b, list_byte_of_string.
  induction s as [|c s IH]; simpl; congruence.
Qed.

(** C7 as stated fails: the length of the prefix buffer after the call is
    not its length before the call.  A fresh parser has an empty prefix
    buffer; after it has parsed [{x:{y:{z:v}}}] with the prefix [p.], and
    produced the one field p.x.y.z = v, its prefix buffer holds the two
    bytes of [p.]. *)
Lemma prefix_length_is_not_kept :
  exists p',
    parseLogMessage reader.Parse newJSONParser nestedDoc "p." true = (p', None)
    /\ Fields p' = [mkField "p.x.y.z" "v"]
    /\ List.length (prefixBuf newJSONParser) = 0%nat
    /\ List.length (prefixBuf p') = 2%nat
    /\ List.length (prefixBuf p') <> List.length (prefixBuf newJSONParser).
Proof.
  eexists. split; [vm_compute; reflexivity|].
  cbn [Fields prefixBuf newJSONParser].
  split; [reflexivity|]. split; [reflexivity|]. split; [reflexivity|].
  simpl. discriminate.
Qed.

(** C7, amended: the prefix is pushed and popped inside the flattening, and
    the call leaves the given prefix in the buffer.  Every call of
    [appendLogFields], the outermost as well as each recursion into a
    nested object, returns the prefix buffer it was called with; a
    recursion is entered with the key and a dot pushed on the prefix and,
    when it returns, the buffer is cut back to the length, and so to the
    content, it had before.  A successful [parseLogMessage] first replaces
    the content of the prefix buffer by the given prefix, whatever the
    buffer [prefixBuf p] held before the call, and the flattening hands
    that back: after the call the buffer holds the given prefix and
    nothing else, its length is the length of that prefix, and this is
    its length before the call exactly when the buffer had the length of
    the prefix already.  The document [{x:{y:{z:v}}}] parsed with the
    prefix [p.] gives the one field p.x.y.z = v. *)
Theorem prefix_push_pop (Parse : fastjson.Tokenizer) (p : JSONParser)
  (msg prefix : string) (resetBuf : bool) (o : list (string * fastjson.Value)) :
  Parse msg = inl (fastjson.VObject o) ->
  exists p',
    parseLogMessage Parse p msg prefix resetBuf = (p', None)
    /\ prefixBuf p' = s2b prefix
    /\ List.length (prefixBuf p') = String.length prefix
    /\ (forall dst dstBuf pb v, snd (appendLogFields dst dstBuf pb v) = pb)
    /\ (forall dst dstBuf pb k o',
           let pushed := (pb ++ key k) ++ s2b "." in
           let inner := appendLogFields dst dstBuf pushed (fastjson.VObject o') in
           snd inner = pushed
           /\ firstn (List.length pb) (snd inner) = pb
           /\ appendLogFields dst dstBuf pb (fastjson.VObject [(k, fastjson.VObject o')])
              = (fst (fst inner), snd (fst inner), pb))
    /\ (o = nestedDocMembers -> prefix = "p." ->
        Fields p' = [mkField "p.x.y.z" "v"])
    /\ (List.length (prefixBuf p') = List.length (prefixBuf p)
        <-> List.length (prefixBuf p) = String.length prefix)
    /\ (prefixBuf p' = prefixBuf p <-> prefixBuf p = s2b prefix).
Proof.
  intro HParse. rewrite (parseLogMessage_ok _ _ _ _ _ _ HParse).
  eexists; split; [reflexivity|]. cbn [Fields prefixBuf].
  split; [reflexivity|]. split; [apply length_s2b|].
  split; [|split; [|split; [|split]]].
  - intros. now rewrite appendLogFields_frame.
  - intros dst dstBuf pb k o'. cbv zeta.
    rewrite appendLogFields_object_member, appendLogFields_frame. cbn [fst snd].
    rewrite <- app_assoc, firstn_length_app. auto.
  - intros -> ->. reflexivity.
  - rewrite length_s2b. split; intro H; now rewrite H.
  - split; intro H; now rewrite H.
Qed.

Lemma prefix_push_pop_witness :
  reader.Parse nestedDoc = inl (fastjson.VObject nestedDocMembers)
  /\ exists p',
       parseLogMessage reader.Parse usedParser nestedDoc "p." true = (p', None)
       /\ prefixBuf p' = s2b "p."
       /\ List.length (prefixBuf p') = 2%nat
       /\ Fields p' = [mkField "p.x.y.z" "v"]
       /\ List.length (prefixBuf usedParser) = 0%nat
       /\ List.length (prefixBuf p') <> List.length (prefixBuf usedParser).
Proof.
  split; [vm_compute; reflexivity|].
  destruct (prefix_push_pop reader.Parse usedParser nestedDoc "p." true
              nestedDocMembers)
    as (p' & Hp' & Hpb & Hlen & _ & _ & Hfields & Hkept & _).
  - vm_compute; reflexivity.
  - exists p'. split; [exact Hp'|]. split; [exact Hpb|]. split; [exact Hlen|].
    split; [now apply Hfields|]. split; [vm_compute; reflexivity|].
    intro H. apply Hkept in H. vm_compute in H. discriminate H.
Defined.

(** ** No deduplication *)

(** C8: flattening does not deduplicate.  The fields of an object are the
    fields of its members one after the other, in the order of the visit,
    each member flattened on its own, and there is one field for every
    leaf.  At every level of nesting, two fields that come from two
    members of an object stand both in the result, the one of the earlier
    member first, whether or not their names are equal; for
    [{a.b:1, a:{b:2}}] the fields are a.b = 1 and then a.b = 2, and with
    the members the other way round a.b = 2 and then a.b = 1. *)
Theorem flattening_keeps_duplicates (Parse : fastjson.Tokenizer) (p : JSONParser)
  (msg prefix : string) (resetBuf : bool) (o : list (string * fastjson.Value)) :
  Parse msg = inl (fastjson.VObject o) ->
  exists p',
    parseLogMessage Parse p msg prefix resetBuf = (p', None)
    /\ Fields p'
       = flat_map (fun kv => emitted (s2b prefix) (fastjson.VObject [kv])) o
    /\ List.length (Fields p') = leaves (fastjson.VObject o)
    /\ (forall pb k o',
           emitted pb (fastjson.VObject [(k, fastjson.VObject o')])
           = emitted (pb ++ key k ++ s2b ".") (fastjson.VObject o'))
    /\ (forall pb o1 kv1 o2 kv2 o3 f1 f2,
           In f1 (emitted pb (fastjson.VObject [kv1])) ->
           In f2 (emitted pb (fastjson.VObject [kv2])) ->
           exists l1 l2 l3,
             emitted pb (fastjson.VObject (o1 ++ kv1 :: o2 ++ kv2 :: o3))
             = l1 ++ f1 :: l2 ++ f2 :: l3)
    /\ (o = clashDocMembers -> prefix = "" ->
        Fields p' = [mkField "a.b" "1"; mkField "a.b" "2"])
    /\ (o = rev clashDocMembers -> prefix = "" ->
        Fields p' = [mkField "a.b" "2"; mkField "a.b" "1"]).
Proof.
  intro HParse. rewrite (parseLogMessage_ok _ _ _ _ _ _ HParse).
  eexists; split; [reflexivity|]. cbn [Fields].
  split; [apply emitted_members|]. split; [apply emitted_length|].
  split; [intros; apply emitted_object|]. split; [|split].
  - intros pb o1 kv1 o2 kv2 o3 f1 f2 H1 H2.
    apply in_split in H1. destruct H1 as (a1 & b1 & E1).
    apply in_split in H2. destruct H2 as (a2 & b2 & E2).
    rewrite emitted_app.
    change (kv1 :: o2 ++ kv2 :: o3) with ([kv1] ++ o2 ++ [kv2] ++ o3).
    rewrite !emitted_app, E1, E2.
    exists (emitted pb (fastjson.VObject o1) ++ a1).
    exists (b1 ++ emitted pb (fastjson.VObject o2) ++ a2).
    exists (b2 ++ emitted pb (fastjson.VObject o3)).
    repeat (rewrite <- ?app_assoc; cbn [app]). reflexivity.
  - intros -> ->. reflexivity.
  - intros -> ->. reflexivity.
Qed.

Lemma flattening_keeps_duplicates_witness :
  reader.Parse clashDoc = inl (fastjson.VObject clashDocMembers)
  /\ exists p',
       parseLogMessage reader.Parse usedParser clashDoc "" true = (p', None)
       /\ Fields p' = [mkField "a.b" "1"; mkField "a.b" "2"]
       /\ List.length (Fields p') = 2%nat.
Proof.
  split; [vm_compute; reflexivity|].
  destruct (flattening_keeps_duplicates reader.Parse usedParser clashDoc "" true
              clashDocMembers)
    as (p' & Hp' & _ & Hlen & _ & _ & Hfields & _).
  - vm_compute; reflexivity.
  - exists p'. repeat split; auto.
Defined.

(** ** The given prefix *)

(** C10: the prefix given to [parseLogMessage] is put before the key as it
    is, with no dot between them.  A top-level member [k] whose value is a
    leaf makes exactly the field named [prefix ++ k] (the key decoded), so
    that field is among the fields of the call; a null member makes none.
    A dot is only written after the key of a nested object: every field
    that comes from below a top-level member [k] that is an object has a
    name that starts with [prefix ++ k ++ "."]. *)
Theorem prefix_is_prepended_verbatim (Parse : fastjson.Tokenizer) (p : JSONParser)
  (msg prefix : string) (resetBuf : bool) (o : list (string * fastjson.Value)) :
  Parse msg = inl (fastjson.VObject o) ->
  exists p',
    parseLogMessage Parse p msg prefix resetBuf = (p', None)
    /\ Fields p'
       = flat_map (fun kv => emitted (s2b prefix) (fastjson.VObject [kv])) o
    /\ (forall k v, isLeaf v = true ->
          emitted (s2b prefix) (fastjson.VObject [(k, v)])
          = [mkField (prefix ++ fastjson.unescapeStringBestEffort k) (leafText v)])
    /\ (forall k v, In (k, v) o -> isLeaf v = true ->
          In (mkField (prefix ++ fastjson.unescapeStringBestEffort k) (leafText v))
             (Fields p'))
    /\ (forall k, emitted (s2b prefix) (fastjson.VObject [(k, fastjson.VNull)]) = [])
    /\ (forall k o' f,
          In f (emitted (s2b prefix) (fastjson.VObject [(k, fastjson.VObject o')])) ->
          exists rest,
            Name f = (prefix ++ fastjson.unescapeStringBestEffort k ++ "." ++ rest)%string).
Proof.
  intro HParse. rewrite (parseLogMessage_ok _ _ _ _ _ _ HParse).
  eexists; split; [reflexivity|]. cbn [Fields].
  assert (Hleaf : forall k v, isLeaf v = true ->
            emitted (s2b prefix) (fastjson.VObject [(k, v)])
            = [mkField (prefix ++ fastjson.unescapeStringBestEffort k) (leafText v)]).
  { intros k v Hv. rewrite (emitted_leaf _ _ _ Hv).
    unfold key. now rewrite ToUnsafeString_app, !ToUnsafeString_s2b. }
  split; [apply emitted_members|]. split; [exact Hleaf|]. split; [|split].
  - intros k v Hin Hv. rewrite emitted_members. apply in_flat_map.
    exists (k, v). split; [exact Hin|]. rewrite (Hleaf _ _ Hv). now left.
  - intro k. apply emitted_null.
  - intros k o' f Hin. rewrite emitted_object in Hin.
    apply emitted_Name in Hin. destruct Hin as [rest ->]. exists rest.
    unfold key. rewrite !ToUnsafeString_app, !ToUnsafeString_s2b.
    now rewrite !string_app_assoc.
Qed.

Lemma prefix_is_prepended_verbatim_witness :
  exists p',
    parseLogMessage reader.Parse newJSONParser flatDoc "app" false = (p', None)
    /\ Fields p' = [mkField "appa.b" "c"; mkField "appd" "1";
                    mkField "appf" "[1,2]"; mkField "appg" "true"]
    /\ In (mkField "appd" "1") (Fields p').
Proof.
  destruct (prefix_is_prepended_verbatim reader.Parse newJSONParser flatDoc "app"
              false flatDocMembers)
    as (p' & Hp' & Hfields & _ & Hin & _).
  - vm_compute; reflexivity.
  - exists p'. split; [exact Hp'|]. split; [exact Hfields|].
    apply (Hin "d" (fastjson.VNumber "1")); [|reflexivity].
    right; left; reflexivity.
Defined.

(** ** [RenameField] *)

Lemma renameFirst_absent (fields : list Field) (oldName newName : string) :
  (forall f, In f fields -> Name f <> oldName) ->
  renameFirst fields oldName newName = fields.
Proof.
  induction fields as [|f rest IH]; intro H; [reflexivity|]. simpl.
  destruct (String.eqb_spec (Name f) oldName) as [E|_].
  - exfalso. apply (H f); [now left|exact E].
  - rewrite IH; [reflexivity|]. intros g Hg. apply H. now right.
Qed.

Lemma renameFirst_first (pre post : list Field) (f : Field) (oldName newName : string) :
  (forall g, In g pre -> Name g <> oldName) ->
  Name f = oldName ->
  renameFirst (pre ++ f :: post) oldName newName
  = pre ++ mkField newName (Value f) :: post.
Proof.
  intros Hpre Hf. induction pre as [|g pre IH]; simpl.
  - rewrite Hf, String.eqb_refl. reflexivity.
  - destruct (String.eqb_spec (Name g) oldName) as [E|_].
    + exfalso. apply (Hpre g); [now left|exact E].
    + rewrite IH; [reflexivity|]. intros h Hh. apply Hpre. now right.
Qed.

Lemma renameFirst_Values (fields : list Field) (oldName newName : string) :
  map Value (renameFirst fields oldName newName) = map Value fields.
Proof.
  induction fields as [|f rest IH]; [reflexivity|]. simpl.
  destruct (Name f =? oldName)%string; simpl; congruence.
Qed.

(** C9: [RenameField] gives the new name to the first field, in the order
    of the fields, whose name is exactly [oldName], and to no other: the
    fields before it, which are not called [oldName], and all the fields
    after it, also those called [oldName], stay as they are.  It does
    nothing when [oldName] is empty or no field is called [oldName].  In
    every case the values of all the fields, the number of fields, the
    backing buffer and the prefix buffer are unchanged. *)
Theorem RenameField_first_only (p : JSONParser) (oldName newName : string) :
  (oldName = "" -> RenameField p oldName newName = p)
  /\ ((forall f, In f (Fields p) -> Name f <> oldName) ->
      RenameField p oldName newName = p)
  /\ (forall pre f post,
         oldName <> "" ->
         Fields p = pre ++ f :: post ->
         (forall g, In g pre -> Name g <> oldName) ->
         Name f = oldName ->
         Fields (RenameField p oldName newName)
         = pre ++ mkField newName (Value f) :: post)
  /\ map Value (Fields (RenameField p oldName newName)) = map Value (Fields p)
  /\ List.length (Fields (RenameField p oldName newName)) = List.length (Fields p)
  /\ buf (RenameField p oldName newName) = buf p
  /\ prefixBuf (RenameField p oldName newName) = prefixBuf p.
Proof.
  unfold RenameField.
  assert (HV : map Value (Fields (if (oldName =? "")%string then p
                 else mkJSONParser (renameFirst (Fields p) oldName newName)
                        (buf p) (prefixBuf p)))
               = map Value (Fields p)).
  { destruct (oldName =? "")%string; [reflexivity|]. apply renameFirst_Values. }
  split; [|split; [|split; [|split; [|split; [|split]]]]].
  - intros ->. reflexivity.
  - intro H. destruct (oldName =? "")%string; [reflexivity|].
    rewrite (renameFirst_absent _ _ _ H). now destruct p.
  - intros pre f post Hne HF Hpre Hf.
    destruct (String.eqb_spec oldName "") as [E|_]; [contradiction|].
    cbn [Fields]. rewrite HF. now apply renameFirst_first.
  - exact HV.
  - rewrite <- (length_map Value), HV. apply length_map.
  - now destruct (oldName =? "")%string.
  - now destruct (oldName =? "")%string.
Qed.

Lemma RenameField_first_only_witness :
  let p := mkJSONParser [mkField "x" "0"; mkField "a" "1"; mkField "a" "2"]
             (s2b "0x1a2a") (s2b "p.") in
  Fields (RenameField p "a" "b")
  = [mkField "x" "0"; mkField "b" "1"; mkField "a" "2"]
  /\ RenameField p "" "b" = p
  /\ RenameField p "y" "b" = p
  /\ buf (RenameField p "a" "b") = s2b "0x1a2a".
Proof.
  intro p.
  destruct (RenameField_first_only p "a" "b") as (_ & _ & Hfirst & _ & _ & Hbuf & _).
  destruct (RenameField_first_only p "" "b") as (Hempty & _).
  destruct (RenameField_first_only p "y" "b") as (_ & Habsent & _).
  split; [|split; [|split]].
  - apply (Hfirst [mkField "x" "0"] (mkField "a" "1") [mkField "a" "2"]).
    + discriminate.
    + reflexivity.
    + intros g [<-|[]]. discriminate.
    + reflexivity.
  - apply Hempty. reflexivity.
  - apply Habsent. intros f [<-|[<-|[<-|[]]]]; discriminate.
  - exact Hbuf.
Defined.

(** [RenameField] on three fields of which two are called a. *)
Example RenameField_duplicates :
  let p := mkJSONParser [mkField "x" "0"; mkField "a" "1"; mkField "a" "2"]
             (s2b "0x1a2a") [] in
  RenameField p "a" "b"
  = mkJSONParser [mkField "x" "0"; mkField "b" "1"; mkField "a" "2"]
      (s2b "0x1a2a") []
  /\ RenameField p "" "b" = p
  /\ RenameField p "y" "b" = p.
Proof. repeat split. Qed.

(** ** More on parsing: reuse of a parser, the buffer, prefixes *)

Lemma s2b_app (a b : string) : s2b (a ++ b)%string = s2b a ++ s2b b.
Proof.
  unfold s2b, list_byte_of_string.
  induction a as [|c a IH]; simpl; [reflexivity|].
  now rewrite IH.
Qed.

(** A call that succeeds was given an object by the tokenizer. *)
Lemma parseLogMessage_success (Parse : fastjson.Tokenizer) (p p' : JSONParser)
  (msg prefix : string) (resetBuf : bool) :
  parseLogMessage Parse p msg prefix resetBuf = (p', None) ->
  exists o, Parse msg = inl (fastjson.VObject o).
Proof.
  unfold parseLogMessage.
  destruct (Parse msg) as [v|err]; [|discriminate].
  destruct v; cbn [fastjson.Type_of fastjson.Type_eqb negb]; try discriminate.
  eauto.
Qed.

(** A longer prefix only shows in the names: in front of each of them. *)
Lemma emitted_prefix (v : fastjson.Value) :
  forall pb1 pb2,
    emitted (pb1 ++ pb2) v
    = map (withPrefix (bytesutil.ToUnsafeString pb1)) (emitted pb2 v).
Proof.
  induction v as [|kvs IH|a _|s|s| |] using Value_tree_ind;
    intros pb1 pb2; try reflexivity.
  rewrite !emitted_members.
  induction IH as [|[k v] o Hv _ IHo]; [reflexivity|].
  cbn [flat_map]. rewrite map_app, IHo. f_equal.
  destruct (isLeaf v) eqn:Hleaf.
  - rewrite !(emitted_leaf _ _ _ Hleaf). unfold withPrefix. cbn [map Name Value].
    now rewrite <- app_assoc, ToUnsafeString_app.
  - destruct v; try discriminate Hleaf; [reflexivity|].
    rewrite !emitted_object, <- app_assoc. apply Hv.
Qed.

(** X1: a successful parse forgets what the parser held.  Whether a call
    succeeds, and the fields and the prefix buffer it leaves, depend on
    the message and the prefix only: not on the fields, buffers or prefix
    of earlier calls, nor on whether the buffer is reset.  With the buffer
    reset ([ParseLogMessage]) the whole parser is the same. *)
Theorem parse_forgets_earlier_calls (Parse : fastjson.Tokenizer)
  (p1 p2 p1' : JSONParser) (msg prefix : string) (r1 r2 : bool) :
  parseLogMessage Parse p1 msg prefix r1 = (p1', None) ->
  exists p2',
    parseLogMessage Parse p2 msg prefix r2 = (p2', None)
    /\ Fields p2' = Fields p1'
    /\ prefixBuf p2' = prefixBuf p1'
    /\ (r1 = true -> r2 = true -> p2' = p1')
    /\ (r1 = true ->
        ParseLogMessage Parse p2 (s2b msg) prefix = (p1', None)).
Proof.
  intro H1. destruct (parseLogMessage_success _ _ _ _ _ _ H1) as [o Ho].
  rewrite (parseLogMessage_ok _ _ _ _ _ _ Ho) in H1. injection H1 as <-.
  rewrite (parseLogMessage_ok _ p2 _ _ r2 _ Ho).
  eexists; split; [reflexivity|]. cbn [Fields prefixBuf].
  split; [reflexivity|]. split; [reflexivity|]. split.
  - intros -> ->. reflexivity.
  - intros ->. unfold ParseLogMessage. rewrite ToUnsafeString_s2b.
    now rewrite (parseLogMessage_ok _ p2 _ _ true _ Ho).
Qed.

Lemma parse_forgets_earlier_calls_witness :
  exists p2',
    parseLogMessage reader.Parse usedParser flatDoc "x." false = (p2', None)
    /\ Fields p2' = map (withPrefix "x.") flatDocFields
    /\ prefixBuf p2' = s2b "x.".
Proof.
  destruct (parse_forgets_earlier_calls reader.Parse newJSONParser usedParser
              (fst (parseLogMessage reader.Parse newJSONParser flatDoc "x." true))
              flatDoc "x." true false eq_refl)
    as (p2' & H2 & HF & HP & _).
  exists p2'. split; [exact H2|]. split; [rewrite HF|rewrite HP]; reflexivity.
Defined.

(** X2: after a successful [ParseLogMessage] the backing buffer is made of
    the fields and of nothing else: for each field in turn the bytes of
    its value, then the bytes of its name.  So every name and value is a
    piece of the buffer, and the buffer is as long as all names and values
    together, whatever the parser held before. *)
Theorem ParseLogMessage_buf_is_the_fields (Parse : fastjson.Tokenizer)
  (p p' : JSONParser) (msg : list byte) (prefix : string) :
  ParseLogMessage Parse p msg prefix = (p', None) ->
  buf p' = flat_map fieldBytes (Fields p')
  /\ List.length (buf p')
     = list_sum (map (fun f => String.length (Value f) + String.length (Name f))%nat
                   (Fields p')).
Proof.
  intro H. apply parseLogMessage_buf in H. cbn [app] in H.
  split; [exact H|]. rewrite H. clear H.
  induction (Fields p') as [|f fs IH]; [reflexivity|].
  cbn [flat_map map list_sum]. rewrite length_app, IH. unfold fieldBytes.
  now rewrite length_app, !length_s2b.
Qed.

Lemma ParseLogMessage_buf_is_the_fields_witness :
  let p' := fst (ParseLogMessage reader.Parse usedParser (s2b flatDoc) "") in
  buf p' = s2b "ca.b1d[1,2]ftrueg" /\ List.length (buf p') = 17%nat.
Proof.
  exact (ParseLogMessage_buf_is_the_fields reader.Parse usedParser _
           (s2b flatDoc) "" eq_refl).
Defined.



(** X3: [ParseLogMessageNoResetBuf] only appends to the backing buffer.
    After a successful call the buffer is what it was, followed by the
    bytes of the new fields: the bytes of the fields of earlier calls stay
    where they were. *)
Theorem ParseLogMessageNoResetBuf_keeps_the_buffer (Parse : fastjson.Tokenizer)
  (p p' : JSONParser) (msg prefix : string) :
  ParseLogMessageNoResetBuf Parse p msg prefix = (p', None) ->
  buf p' = buf p ++ flat_map fieldBytes (Fields p')
  /\ firstn (List.length (buf p)) (buf p') = buf p.
Proof.
  intro H. apply parseLogMessage_buf in H. split; [exact H|].
  rewrite H. apply firstn_length_app.
Qed.

Lemma ParseLogMessageNoResetBuf_keeps_the_buffer_witness :
  let p' := fst (ParseLogMessageNoResetBuf reader.Parse usedParser nestedDoc "p.") in
  buf p' = s2b "ba" ++ s2b "vp.x.y.z"
  /\ firstn 2 (buf p') = s2b "ba".
Proof.
  exact (ParseLogMessageNoResetBuf_keeps_the_buffer reader.Parse usedParser _
           nestedDoc "p." eq_refl).
Defined.

(** X4: the prefix only shows in the names.  Parsing a message with the
    prefix [a ++ b] gives the fields of parsing it with the prefix [b],
    each with [a] before its name: same number, same order, same values.
    In particular every name starts with the prefix given. *)
Theorem prefix_is_on_every_name (Parse : fastjson.Tokenizer)
  (p1 p2 p1' : JSONParser) (msg a b : string) (r1 r2 : bool) :
  parseLogMessage Parse p1 msg (a ++ b) r1 = (p1', None) ->
  exists p2',
    parseLogMessage Parse p2 msg b r2 = (p2', None)
    /\ Fields p1' = map (withPrefix a) (Fields p2')
    /\ map Value (Fields p1') = map Value (Fields p2')
    /\ (forall f, In f (Fields p1') ->
        exists rest, Name f = ((a ++ b) ++ rest)%string).
Proof.
  intro H1. destruct (parseLogMessage_success _ _ _ _ _ _ H1) as [o Ho].
  rewrite (parseLogMessage_ok _ _ _ _ _ _ Ho) in H1. injection H1 as <-.
  rewrite (parseLogMessage_ok _ p2 _ _ r2 _ Ho).
  eexists; split; [reflexivity|]. cbn [Fields].
  assert (HF : emitted (s2b (a ++ b)) (fastjson.VObject o)
               = map (withPrefix a) (emitted (s2b b) (fastjson.VObject o))).
  { now rewrite s2b_app, emitted_prefix, ToUnsafeString_s2b. }
  split; [exact HF|]. split.
  - rewrite HF, map_map. reflexivity.
  - intros f Hf. apply emitted_Name in Hf. rewrite ToUnsafeString_s2b in Hf.
    exact Hf.
Qed.

Lemma prefix_is_on_every_name_witness :
  exists p2',
    parseLogMessage reader.Parse usedParser clashDoc "" false = (p2', None)
    /\ [mkField "log.a.b" "1"; mkField "log.a.b" "2"]
       = map (withPrefix "log.") (Fields p2').
Proof.
  destruct (prefix_is_on_every_name reader.Parse newJSONParser usedParser
              (fst (parseLogMessage reader.Parse newJSONParser clashDoc "log." true))
              clashDoc "log." "" true false eq_refl)
    as (p2' & H2 & HF & _).
  exists p2'. split; [exact H2|exact HF].
Defined.

(** X5: flattening goes member by member, and a nested object is
    flattened like a message of its own.  The fields of an object with
    the members [o1], then a member [k] that is the object [o], then the
    members [o2] are: the fields of [o1] parsed alone, then the fields of
    [o] parsed alone with the prefix extended by [k] and a dot, then the
    fields of [o2] parsed alone. *)
Theorem flattening_is_compositional (Parse : fastjson.Tokenizer) (p : JSONParser)
  (msg msg1 msgk msg2 prefix k : string) (r : bool)
  (o1 o o2 : list (string * fastjson.Value)) :
  Parse msg = inl (fastjson.VObject (o1 ++ (k, fastjson.VObject o) :: o2)) ->
  Parse msg1 = inl (fastjson.VObject o1) ->
  Parse msgk = inl (fastjson.VObject o) ->
  Parse msg2 = inl (fastjson.VObject o2) ->
  Fields (fst (parseLogMessage Parse p msg prefix r))
  = Fields (fst (parseLogMessage Parse p msg1 prefix r))
    ++ Fields (fst (parseLogMessage Parse p msgk
                      (prefix ++ fastjson.unescapeStringBestEffort k ++ ".") r))
    ++ Fields (fst (parseLogMessage Parse p msg2 prefix r)).
Proof.
  intros H H1 Hk H2.
  rewrite (parseLogMessage_ok _ _ _ _ _ _ H), (parseLogMessage_ok _ _ _ _ _ _ H1),
    (parseLogMessage_ok _ _ _ _ _ _ Hk), (parseLogMessage_ok _ _ _ _ _ _ H2).
  cbn [fst Fields].
  change ((k, fastjson.VObject o) :: o2) with ([(k, fastjson.VObject o)] ++ o2).
  rewrite !emitted_app, emitted_object, !s2b_app. reflexivity.
Qed.

Lemma flattening_is_compositional_witness :
  Fields (fst (parseLogMessage reader.Parse newJSONParser
                 (reader.text "{'d':1,'a':{'b':'c','e':{'f':true}},'g':[2]}") "p." true))
  = [mkField "p.d" "1"] ++ [mkField "p.a.b" "c"; mkField "p.a.e.f" "true"]
    ++ [mkField "p.g" "[2]"].
Proof.
  exact (flattening_is_compositional reader.Parse newJSONParser
           (reader.text "{'d':1,'a':{'b':'c','e':{'f':true}},'g':[2]}")
           (reader.text "{'d':1}") (reader.text "{'b':'c','e':{'f':true}}")
           (reader.text "{'g':[2]}") "p." "a" true
           [("d", fastjson.VNumber "1")]
           [("b", fastjson.VString "c");
            ("e", fastjson.VObject [("f", fastjson.VTrue)])]
           [("g", fastjson.VArray [fastjson.VNumber "2"])]
           eq_refl eq_refl eq_refl eq_refl).
Defined.

(** ** More on [RenameField] *)

Lemma renameFirst_round_trip (fields : list Field) (a b : string) :
  (forall f, In f fields -> Name f <> b) ->
  renameFirst (renameFirst fields a b) b a = fields.
Proof.
  induction fields as [|f rest IH]; intro Hb; [reflexivity|]. simpl.
  assert (Hf : Name f <> b) by (apply Hb; now left).
  assert (Hrest : forall g, In g rest -> Name g <> b)
    by (intros g Hg; apply Hb; now right).
  destruct (String.eqb_spec (Name f) a) as [E|E]; simpl.
  - rewrite String.eqb_refl. destruct f as [n v]. simpl in E. now subst n.
  - destruct (String.eqb_spec (Name f) b) as [E'|_]; [contradiction|].
    now rewrite IH.
Qed.

Lemma renameFirst_countName (fields : list Field) (a b : string) :
  a <> b ->
  countName a (renameFirst fields a b) = pred (countName a fields)
  /\ countName b (renameFirst fields a b)
     = (countName b fields + Nat.min 1 (countName a fields))%nat.
Proof.
  intro Hab. unfold countName.
  induction fields as [|f rest [IHa IHb]]; [split; reflexivity|]. simpl.
  destruct (String.eqb_spec (Name f) a) as [E|E]; cbn [map Name count_occ].
  - destruct (string_dec b a) as [Eba|_]; [congruence|].
    destruct (string_dec (Name f) a) as [_|N]; [|contradiction].
    destruct (string_dec b b) as [_|N]; [|contradiction].
    destruct (string_dec (Name f) b) as [Efb|_]; [congruence|].
    split; [reflexivity|]. simpl. lia.
  - destruct (string_dec (Name f) a) as [Efa|_]; [contradiction|].
    rewrite IHa, IHb.
    destruct (string_dec (Name f) b); split; simpl; lia.
Qed.

Lemma RenameField_Fields (p : JSONParser) (a b : string) :
  a <> "" -> Fields (RenameField p a b) = renameFirst (Fields p) a b.
Proof.
  intro Ha. unfold RenameField.
  destruct (String.eqb_spec a "") as [E|_]; [contradiction|]. reflexivity.
Qed.

(** X6: a renaming can be taken back, unless the new name is taken or
    empty.  When no field is called [b] and [b] is not empty, renaming [a]
    to [b] and then [b] to [a] gives back the parser.  Renaming to the
    empty name cannot be taken back: no later [RenameField] changes the
    parser again through that name, and a field called [a] is lost to
    [a]. *)
Theorem RenameField_round_trip (p : JSONParser) (a b : string) :
  (b <> "" -> (forall f, In f (Fields p) -> Name f <> b) ->
   RenameField (RenameField p a b) b a = p)
  /\ (forall c, RenameField (RenameField p a "") "" c = RenameField p a "")
  /\ (a <> "" -> (0 < countName a (Fields p))%nat ->
      RenameField (RenameField p a "") "" a <> p).
Proof.
  split; [|split].
  - intros Hb Hno. unfold RenameField.
    destruct (String.eqb_spec b "") as [E|_]; [contradiction|].
    destruct (String.eqb_spec a "") as [_|_]; cbn [Fields buf prefixBuf].
    + rewrite (renameFirst_absent _ _ _ Hno). now destruct p.
    + rewrite (renameFirst_round_trip _ _ _ Hno). now destruct p.
  - reflexivity.
  - intros Ha Hcount Heq. cbn in Heq.
    apply (f_equal (fun q => countName a (Fields q))) in Heq.
    rewrite (RenameField_Fields _ _ _ Ha) in Heq.
    destruct (renameFirst_countName (Fields p) a "" Ha) as [Hdec _].
    rewrite Hdec in Heq. lia.
Qed.

Lemma RenameField_round_trip_witness :
  let p := mkJSONParser [mkField "x" "0"; mkField "a" "1"; mkField "a" "2"]
             (s2b "0x1a2a") [] in
  RenameField (RenameField p "a" "b") "b" "a" = p
  /\ RenameField (RenameField p "a" "") "" "a" <> p.
Proof.
  intro p. destruct (RenameField_round_trip p "a" "b") as (Hback & _).
  destruct (RenameField_round_trip p "a" "a") as (_ & _ & Hlost).
  split.
  - apply Hback; [discriminate|].
    intros f [<-|[<-|[<-|[]]]]; discriminate.
  - apply Hlost; [discriminate|]. vm_compute. constructor. constructor.
Defined.

(** X7: each call renames one field and no more.  For [a] not empty and
    different from [b], [n] calls of [RenameField(a, b)] leave [n] fields
    fewer called [a] and as many more called [b], until none is called
    [a]; so as many calls as there are fields called [a] rename them
    all, and fewer calls do not. *)
Theorem RenameField_times (n : nat) (p : JSONParser) (a b : string) :
  a <> "" -> a <> b ->
  countName a (Fields (RenameFieldTimes n p a b)) = (countName a (Fields p) - n)%nat
  /\ countName b (Fields (RenameFieldTimes n p a b))
     = (countName b (Fields p) + Nat.min n (countName a (Fields p)))%nat
  /\ List.length (Fields (RenameFieldTimes n p a b)) = List.length (Fields p)
  /\ map Value (Fields (RenameFieldTimes n p a b)) = map Value (Fields p).
Proof.
  intros Ha Hab. unfold RenameFieldTimes, Nat.iter.
  induction n as [|n (IHa & IHb & IHl & IHv)]; cbn [nat_rect].
  - split; [lia|]. split; [simpl; lia|]. split; reflexivity.
  - rewrite (RenameField_Fields _ _ _ Ha).
    match goal with
    | |- context [renameFirst (Fields ?q) a b] =>
        destruct (renameFirst_countName (Fields q) a b Hab) as [Ha' Hb']
    end.
    rewrite Ha', Hb', IHa, IHb. split; [lia|]. split; [lia|]. split.
    + rewrite <- IHl, <- !(length_map Value), renameFirst_Values. reflexivity.
    + now rewrite renameFirst_Values.
Qed.

Lemma RenameField_times_witness :
  let p := mkJSONParser [mkField "a" "0"; mkField "b" "1"; mkField "a" "2";
                         mkField "a" "3"] [] [] in
  countName "a" (Fields (RenameFieldTimes 2 p "a" "b")) = 1%nat
  /\ countName "b" (Fields (RenameFieldTimes 2 p "a" "b")) = 3%nat
  /\ countName "a" (Fields (RenameFieldTimes 3 p "a" "b")) = 0%nat.
Proof.
  intro p.
  assert (Ha : "a" <> "") by discriminate.
  assert (Hab : "a" <> "b") by discriminate.
  destruct (RenameField_times 2 p "a" "b" Ha Hab) as (H2a & H2b & _).
  destruct (RenameField_times 3 p "a" "b" Ha Hab) as (H3a & _).
  split; [exact H2a|]. split; [exact H2b|exact H3a].
Defined.

(** ** The pool of parsers *)

Lemma Forall_Drop {A : Type} (P : A -> Prop) (l : list A) :
  Forall P l -> forall i, Forall P (firstn i l ++ skipn (S i) l).
Proof.
  induction 1 as [|x l Hx Hl IH]; intro i.
  - destruct i; constructor.
  - destruct i as [|i]; simpl; [exact Hl|].
    constructor; [exact Hx|apply IH].
Qed.

Lemma reachable_is_reset (pool : parserPool.Pool) :
  parserPool.reachable pool -> Forall (fun p => p = newJSONParser) pool.
Proof.
  induction 1 as [|p pool _ IH|pick pool _ IH|i pool _ IH].
  - constructor.
  - constructor; [reflexivity|exact IH].
  - unfold parserPool.GetJSONParser, parserPool.Get.
    destruct pick as [i|]; [|exact IH].
    destruct (nth_error pool i); [|exact IH].
    apply Forall_Drop, IH.
  - apply Forall_Drop, IH.
Qed.

(** X8: a parser that comes out of the pool is empty.  Whatever parsers
    were put back, in whatever state, and whichever of them the pool
    hands out, [GetJSONParser] returns a parser with no fields, an empty
    backing buffer and an empty prefix buffer; and the parser put back
    last can be the one handed out, reset. *)
Theorem GetJSONParser_is_empty (pool : parserPool.Pool) (pick : option nat) :
  parserPool.reachable pool ->
  let p := fst (parserPool.GetJSONParser pick pool) in
  Fields p = [] /\ buf p = [] /\ prefixBuf p = []
  /\ forall q, parserPool.GetJSONParser (Some 0%nat) (parserPool.PutJSONParser q pool)
               = (reset q, pool).
Proof.
  intro Hreach. apply reachable_is_reset in Hreach.
  assert (Hp : fst (parserPool.GetJSONParser pick pool) = newJSONParser).
  { unfold parserPool.GetJSONParser, parserPool.Get.
    destruct pick as [i|]; [|reflexivity].
    destruct (nth_error pool i) as [v|] eqn:Hi; [|reflexivity].
    rewrite Forall_forall in Hreach. apply Hreach.
    eapply nth_error_In. exact Hi. }
  cbv zeta. rewrite Hp. repeat split.
Qed.

Lemma GetJSONParser_is_empty_witness :
  let pool := parserPool.PutJSONParser usedParser
                (parserPool.PutJSONParser
                   (fst (parseLogMessage reader.Parse newJSONParser flatDoc "" true))
                   []) in
  Fields (fst (parserPool.GetJSONParser (Some 1%nat) pool)) = []
  /\ buf (fst (parserPool.GetJSONParser (Some 1%nat) pool)) = []
  /\ prefixBuf (fst (parserPool.GetJSONParser (Some 1%nat) pool)) = [].
Proof.
  intro pool.
  destruct (GetJSONParser_is_empty pool (Some 1%nat)) as (HF & HB & HP & _).
  - unfold pool. repeat constructor.
  - repeat split; assumption.
Defined.

(** ** Label limits *)

Import prompbmarshal storage limits.

Section LabelLimits.
Local Open Scope Z_scope.

Lemma Uint64_Add_1 (c : Z) : 0 <= c < 2 ^ 64 - 1 -> Uint64_Add c 1 = c + 1.
Proof. intro H. unfold Uint64_Add. apply Z.mod_small. lia. Qed.

Lemma bumped_TooManyLabels (labels : list Label) (g : Globals) :
  bumped TooManyLabels g (trackIgnoredSeriesWithTooManyLabels labels g).
Proof.
  repeat split; simpl; auto using Uint64_Add_1.
  intros [] H; simpl; congruence.
Qed.

Lemma bumped_LabelNameTooLong (l : Label) (labels : list Label) (g : Globals) :
  bumped LabelNameTooLong g (trackIgnoredSeriesWithTooLongLabelName l labels g).
Proof.
  repeat split; simpl; auto using Uint64_Add_1.
  intros [] H; simpl; congruence.
Qed.

Lemma bumped_LabelValueTooLong (l : Label) (labels : list Label) (g : Globals) :
  bumped LabelValueTooLong g (trackIgnoredSeriesWithTooLongLabelValue l labels g).
Proof.
  repeat split; simpl; auto using Uint64_Add_1.
  intros [] H; simpl; congruence.
Qed.

(** The loop over labels that are all within the limits. *)
Lemma exceedingLoop_within (rest labels : list Label) (g : Globals) :
  Forall (within g) rest -> exceedingLoop rest labels g = (false, g).
Proof.
  induction 1 as [|l rest [Hn Hv] _ IH]; [reflexivity|]. simpl.
  destruct (Z.gtb_spec (len (Name l)) maxLabelNameLen); [lia|].
  destruct (Z.gtb_spec (len (Value l)) (maxLabelValueLen g)); [lia|].
  exact IH.
Qed.

(** The loop stops at the first label with a name that is too long. *)
Lemma exceedingLoop_name (pre post labels : list Label) (l : Label) (g : Globals) :
  Forall (within g) pre -> len (Name l) > maxLabelNameLen ->
  exceedingLoop (pre ++ l :: post) labels g
  = (true, trackIgnoredSeriesWithTooLongLabelName l labels g).
Proof.
  intros Hpre Hl. induction Hpre as [|x pre [Hn Hv] _ IH]; simpl.
  - destruct (Z.gtb_spec (len (Name l)) maxLabelNameLen); [reflexivity|lia].
  - destruct (Z.gtb_spec (len (Name x)) maxLabelNameLen); [lia|].
    destruct (Z.gtb_spec (len (Value x)) (maxLabelValueLen g)); [lia|].
    exact IH.
Qed.

(** The loop stops at the first label with a value that is too long,
    when its name is not. *)
Lemma exceedingLoop_value (pre post labels : list Label) (l : Label) (g : Globals) :
  Forall (within g) pre ->
  len (Name l) <= maxLabelNameLen -> len (Value l) > maxLabelValueLen g ->
  exceedingLoop (pre ++ l :: post) labels g
  = (true, trackIgnoredSeriesWithTooLongLabelValue l labels g).
Proof.
  intros Hpre Hn Hv. induction Hpre as [|x pre [Hxn Hxv] _ IH]; simpl.
  - destruct (Z.gtb_spec (len (Name l)) maxLabelNameLen); [lia|].
    destruct (Z.gtb_spec (len (Value l)) (maxLabelValueLen g)); [reflexivity|lia].
  - destruct (Z.gtb_spec (len (Name x)) maxLabelNameLen); [lia|].
    destruct (Z.gtb_spec (len (Value x)) (maxLabelValueLen g)); [lia|].
    exact IH.
Qed.

(** What the loop returns: nothing changed and [false] when every label
    is within the limits, otherwise [true] and one counter bumped. *)
Lemma exceedingLoop_cases (rest labels : list Label) (g : Globals) :
  (Forall (within g) rest /\ exceedingLoop rest labels g = (false, g))
  \/ (Exists (fun l => ~ within g l) rest
      /\ fst (exceedingLoop rest labels g) = true
      /\ (bumped LabelNameTooLong g (snd (exceedingLoop rest labels g))
          \/ bumped LabelValueTooLong g (snd (exceedingLoop rest labels g)))).
Proof.
  induction rest as [|l rest IH]; simpl.
  - left. split; [constructor|reflexivity].
  - destruct (Z.gtb_spec (len (Name l)) maxLabelNameLen) as [Hn|Hn].
    { right. split; [left; unfold within; lia|]. simpl.
      split; [reflexivity|]. left. apply bumped_LabelNameTooLong. }
    destruct (Z.gtb_spec (len (Value l)) (maxLabelValueLen g)) as [Hv|Hv].
    { right. split; [left; unfold within; lia|]. simpl.
      split; [reflexivity|]. right. apply bumped_LabelValueTooLong. }
    destruct IH as [[HF HE]|[HX HE]].
    + left. split; [constructor; [split; lia|exact HF]|exact HE].
    + right. split; [right; exact HX|exact HE].
Qed.

Lemma not_within (g : Globals) (l : Label) :
  ~ within g l
  <-> len (Name l) > maxLabelNameLen \/ len (Value l) > maxLabelValueLen g.
Proof. unfold within. lia. Qed.

Lemma ExceedingLabels_true (labels : list Label) (g : Globals) :
  fst (ExceedingLabels labels g) = true <-> violates g labels.
Proof.
  unfold ExceedingLabels, violates.
  destruct (Z.gtb_spec (len_ labels) (maxLabelsPerTimeseries g)) as [Hc|Hc].
  - simpl. split; [intros _; left; lia|reflexivity].
  - destruct (exceedingLoop_cases labels labels g) as [[HF HE]|(HX & HE & _)].
    + rewrite HE. simpl. split; [discriminate|].
      intros [H|(l & Hin & Hl)]; [lia|].
      rewrite Forall_forall in HF. apply HF in Hin. unfold within in Hin. lia.
    + split; [intros _|intros _; exact HE]. right.
      apply Exists_exists in HX. destruct HX as (l & Hin & Hl).
      exists l. split; [exact Hin|]. now apply not_within.
Qed.

Lemma ExceedingLabels_false (labels : list Label) (g : Globals) :
  fst (ExceedingLabels labels g) = false -> snd (ExceedingLabels labels g) = g.
Proof.
  unfold ExceedingLabels.
  destruct (len_ labels >? maxLabelsPerTimeseries g); [discriminate|].
  destruct (exceedingLoop_cases labels labels g) as [[_ HE]|(_ & HE & _)].
  - now rewrite HE.
  - rewrite HE. discriminate.
Qed.

End LabelLimits.

Section Admission.
Local Open Scope Z_scope.

(** C2: the limits are exclusive bounds.  With at most 40 labels per
    series and label values of at most 4096 bytes allowed, a set of up to
    40 labels, so one of exactly 40, whose names have up to 256 bytes and
    whose values have up to 4096 bytes is admitted and nothing changes;
    any set of 41 labels is refused and the counter of the series with
    too many labels takes one [Add(1)] (one more, away from the wrap at
    2^64) while the two other counters stay; a set with a value of 4097
    bytes is refused, and so is a set with a name of 257 bytes. *)
Theorem limits_are_exclusive (g : Globals) :
  maxLabelsPerTimeseries g = 40 ->
  maxLabelValueLen g = 4096 ->
  (forall labels,
      len_ labels <= 40 ->
      Forall (fun l => len (Name l) <= 256 /\ len (Value l) <= 4096) labels ->
      ExceedingLabels labels g = (false, g))
  /\ (forall labels,
         len_ labels = 41 ->
         fst (ExceedingLabels labels g) = true
         /\ bumped TooManyLabels g (snd (ExceedingLabels labels g)))
  /\ (forall labels l,
         In l labels -> len (Value l) = 4097 ->
         fst (ExceedingLabels labels g) = true)
  /\ (forall labels l,
         In l labels -> len (Name l) = 257 ->
         fst (ExceedingLabels labels g) = true).
Proof.
  intros Hmax Hval. split; [|split; [|split]].
  - intros labels Hlen HF. unfold ExceedingLabels.
    destruct (Z.gtb_spec (len_ labels) (maxLabelsPerTimeseries g)); [lia|].
    apply exceedingLoop_within. eapply Forall_impl; [|exact HF].
    intros l [Hn Hv]. unfold within, maxLabelNameLen. lia.
  - intros labels Hlen. unfold ExceedingLabels.
    destruct (Z.gtb_spec (len_ labels) (maxLabelsPerTimeseries g)); [|lia].
    split; [reflexivity|apply bumped_TooManyLabels].
  - intros labels l Hin Hl. apply ExceedingLabels_true. right.
    exists l. split; [exact Hin|]. right. lia.
  - intros labels l Hin Hl. apply ExceedingLabels_true. right.
    exists l. split; [exact Hin|]. left. unfold maxLabelNameLen. lia.
Qed.

Lemma limits_are_exclusive_witness :
  ExceedingLabels (labelSet 40 256 4096) initial = (false, initial)
  /\ fst (ExceedingLabels (labelSet 41 1 1) initial) = true
  /\ ignoredSeriesWithTooManyLabels (snd (ExceedingLabels (labelSet 41 1 1) initial))
     = 1
  /\ fst (ExceedingLabels (labelSet 1 1 4097) initial) = true
  /\ fst (ExceedingLabels (labelSet 1 257 1) initial) = true.
Proof.
  destruct (limits_are_exclusive initial eq_refl eq_refl) as (H40 & H41 & Hv & Hn).
  split; [|split; [|split; [|split]]].
  - apply H40; [vm_compute; discriminate|].
    unfold labelSet. apply Forall_forall. intros l Hl.
    apply repeat_spec in Hl. subst l. split; vm_compute; discriminate.
  - apply (H41 (labelSet 41 1 1)). vm_compute; reflexivity.
  - destruct (H41 (labelSet 41 1 1)) as (_ & _ & H1 & _); [vm_compute; reflexivity|].
    apply H1. vm_compute. split; [discriminate|reflexivity].
  - apply (Hv _ (mkLabel (replicate 1 "n") (replicate 4097 "v")));
      [left; reflexivity|vm_compute; reflexivity].
  - apply (Hn _ (mkLabel (replicate 257 "n") (replicate 1 "v")));
      [left; reflexivity|vm_compute; reflexivity].
Defined.

(** C3: [ExceedingLabels] returns [true] if and only if the label set
    breaks at least one of the three limits; when it returns [false]
    nothing has happened: the counters, the tickers, the warnings and the
    limits are those of before. *)
Theorem ExceedingLabels_true_iff_violation (labels : list Label) (g : Globals) :
  (fst (ExceedingLabels labels g) = true <-> violates g labels)
  /\ (fst (ExceedingLabels labels g) = false ->
      snd (ExceedingLabels labels g) = g
      /\ forall k, counter k (snd (ExceedingLabels labels g)) = counter k g).
Proof.
  split; [apply ExceedingLabels_true|].
  intro H. apply ExceedingLabels_false in H. rewrite H. auto.
Qed.

Lemma ExceedingLabels_true_iff_violation_witness :
  fst (ExceedingLabels (labelSet 1 257 1) initial) = true
  /\ violates initial (labelSet 41 1 1)
  /\ snd (ExceedingLabels (labelSet 40 256 4096) initial) = initial.
Proof.
  split; [|split].
  - apply (ExceedingLabels_true_iff_violation (labelSet 1 257 1) initial).
    right. exists (mkLabel (replicate 257 "n") (replicate 1 "v")).
    split; [left; reflexivity|]. left. vm_compute. reflexivity.
  - apply (ExceedingLabels_true_iff_violation (labelSet 41 1 1) initial).
    vm_compute. reflexivity.
  - apply (ExceedingLabels_true_iff_violation (labelSet 40 256 4096) initial).
    vm_compute. reflexivity.
Defined.

(** C4: the checks run in a fixed order and stop at the first violation.
    The number of labels is checked first: a set with too many labels
    bumps the counter of that kind, whatever its labels are.  Otherwise
    the labels are visited in their order, the name of a label before its
    value: at the first label that is not within the limits the scan
    stops, and the counter of too long names is bumped when its name is
    too long, the one of too long values when only its value is; the
    labels after it are not looked at.  Every
    refusal bumps exactly one counter, the one of the kind found, by one
    [Add(1)], whatever the state of the tickers. *)
Theorem ExceedingLabels_first_violation (labels : list Label) (g : Globals) :
  (len_ labels > maxLabelsPerTimeseries g ->
   fst (ExceedingLabels labels g) = true
   /\ bumped TooManyLabels g (snd (ExceedingLabels labels g)))
  /\ (forall pre l post,
         len_ labels <= maxLabelsPerTimeseries g ->
         labels = pre ++ l :: post ->
         Forall (within g) pre ->
         len (Name l) > maxLabelNameLen ->
         fst (ExceedingLabels labels g) = true
         /\ bumped LabelNameTooLong g (snd (ExceedingLabels labels g))
         /\ snd (ExceedingLabels labels g)
            = trackIgnoredSeriesWithTooLongLabelName l labels g)
  /\ (forall pre l post,
         len_ labels <= maxLabelsPerTimeseries g ->
         labels = pre ++ l :: post ->
         Forall (within g) pre ->
         len (Name l) <= maxLabelNameLen ->
         len (Value l) > maxLabelValueLen g ->
         fst (ExceedingLabels labels g) = true
         /\ bumped LabelValueTooLong g (snd (ExceedingLabels labels g))
         /\ snd (ExceedingLabels labels g)
            = trackIgnoredSeriesWithTooLongLabelValue l labels g)
  /\ (fst (ExceedingLabels labels g) = true ->
      exists k, bumped k g (snd (ExceedingLabels labels g))).
Proof.
  unfold ExceedingLabels. split; [|split; [|split]].
  - intro H.
    destruct (Z.gtb_spec (len_ labels) (maxLabelsPerTimeseries g)); [|lia].
    split; [reflexivity|apply bumped_TooManyLabels].
  - intros pre l post Hc -> Hpre Hn.
    destruct (Z.gtb_spec (len_ (pre ++ l :: post)) (maxLabelsPerTimeseries g)); [lia|].
    rewrite (exceedingLoop_name _ _ _ _ _ Hpre Hn).
    split; [reflexivity|]. split; [apply bumped_LabelNameTooLong|reflexivity].
  - intros pre l post Hc -> Hpre Hn Hv.
    destruct (Z.gtb_spec (len_ (pre ++ l :: post)) (maxLabelsPerTimeseries g)); [lia|].
    rewrite (exceedingLoop_value _ _ _ _ _ Hpre Hn Hv).
    split; [reflexivity|]. split; [apply bumped_LabelValueTooLong|reflexivity].
  - destruct (len_ labels >? maxLabelsPerTimeseries g).
    + intros _. exists TooManyLabels. apply bumped_TooManyLabels.
    + destruct (exceedingLoop_cases labels labels g) as [[_ HE]|(_ & _ & [H|H])].
      * rewrite HE. discriminate.
      * intros _. exists LabelNameTooLong. exact H.
      * intros _. exists LabelValueTooLong. exact H.
Qed.

Lemma ExceedingLabels_first_violation_witness :
  let many := labelSet 41 300 1 in
  let late := labelSet 2 1 1 ++ labelSet 1 300 5000 ++ labelSet 1 1 5000 in
  let value := labelSet 2 256 4096 ++ labelSet 1 256 4097 ++ labelSet 1 300 1 in
  bumped TooManyLabels initial (snd (ExceedingLabels many initial))
  /\ bumped LabelNameTooLong initial (snd (ExceedingLabels late initial))
  /\ bumped LabelValueTooLong initial (snd (ExceedingLabels value initial)).
Proof.
  intros many late value.
  destruct (ExceedingLabels_first_violation many initial) as (Hmany & _).
  destruct (ExceedingLabels_first_violation late initial) as (_ & Hname & _).
  destruct (ExceedingLabels_first_violation value initial) as (_ & _ & Hvalue & _).
  split; [|split].
  - apply Hmany. vm_compute. reflexivity.
  - apply (Hname (labelSet 2 1 1) (mkLabel (replicate 300 "n") (replicate 5000 "v"))
             (labelSet 1 1 5000)).
    + vm_compute. discriminate.
    + reflexivity.
    + repeat constructor; vm_compute; discriminate.
    + vm_compute. reflexivity.
  - apply (Hvalue (labelSet 2 256 4096)
             (mkLabel (replicate 256 "n") (replicate 4097 "v")) (labelSet 1 300 1)).
    + vm_compute. discriminate.
    + reflexivity.
    + repeat constructor; vm_compute; discriminate.
    + vm_compute. discriminate.
    + vm_compute. reflexivity.
Defined.

(** The warning is throttled, the counter is not: a refusal logs at most
    one warning, and none while no tick waits in any ticker. *)
Lemma ExceedingLabels_warnings (labels : list Label) (g : Globals) :
  (ignoredSeriesWithTooManyLabelsLogTicker g = false ->
   ignoredSeriesWithTooLongLabelNameLogTicker g = false ->
   ignoredSeriesWithTooLongLabelValueLogTicker g = false ->
   warnings (snd (ExceedingLabels labels g)) = warnings g)
  /\ (List.length (warnings (snd (ExceedingLabels labels g)))
      <= S (List.length (warnings g)))%nat.
Proof.
  assert (Hloop : forall rest,
             (ignoredSeriesWithTooLongLabelNameLogTicker g = false ->
              ignoredSeriesWithTooLongLabelValueLogTicker g = false ->
              warnings (snd (exceedingLoop rest labels g)) = warnings g)
             /\ (List.length (warnings (snd (exceedingLoop rest labels g)))
                 <= S (List.length (warnings g)))%nat).
  { induction rest as [|l rest IH]; simpl; [auto|].
    destruct (len (Name l) >? maxLabelNameLen); simpl.
    - split; [intros -> _; reflexivity|].
      destruct (ignoredSeriesWithTooLongLabelNameLogTicker g);
        rewrite ?length_app; simpl; lia.
    - destruct (len (Value l) >? maxLabelValueLen g); simpl; [|exact IH].
      split; [intros _ ->; reflexivity|].
      destruct (ignoredSeriesWithTooLongLabelValueLogTicker g);
        rewrite ?length_app; simpl; lia. }
  unfold ExceedingLabels.
  destruct (len_ labels >? maxLabelsPerTimeseries g); simpl.
  - split; [intros -> _ _; reflexivity|].
    destruct (ignoredSeriesWithTooManyLabelsLogTicker g);
      rewrite ?length_app; simpl; lia.
  - destruct (Hloop labels) as [H1 H2]. split; [intros _; exact H1|exact H2].
Qed.

(** Too many labels that all have too long names count once, as too many
    labels; of two labels that break a limit the first one decides. *)
Example ExceedingLabels_short_circuit :
  let g1 := snd (ExceedingLabels (labelSet 41 300 1) initial) in
  let g2 := snd (ExceedingLabels
                   (labelSet 2 1 1 ++ labelSet 1 1 5000 ++ labelSet 1 300 1)
                   initial) in
  (counter TooManyLabels g1, counter LabelNameTooLong g1,
   counter LabelValueTooLong g1) = (1, 0, 0)
  /\ (counter TooManyLabels g2, counter LabelNameTooLong g2,
      counter LabelValueTooLong g2) = (0, 0, 1).
Proof. split; vm_compute; reflexivity. Qed.

End Admission.

(** ** More on the label limits: order, limits, runs of calls *)

Import runs.

Section AdmissionRuns.
Local Open Scope Z_scope.

(** What the loop does, case by case: nothing, or it stops at a label of
    [rest] and tracks it. *)
Lemma exceedingLoop_result (rest labels : list Label) (g : Globals) :
  exceedingLoop rest labels g = (false, g)
  \/ (exists l, In l rest /\ len (Name l) > maxLabelNameLen
                /\ exceedingLoop rest labels g
                   = (true, trackIgnoredSeriesWithTooLongLabelName l labels g))
  \/ (exists l, In l rest /\ len (Name l) <= maxLabelNameLen
                /\ len (Value l) > maxLabelValueLen g
                /\ exceedingLoop rest labels g
                   = (true, trackIgnoredSeriesWithTooLongLabelValue l labels g)).
Proof.
  induction rest as [|l rest IH]; simpl; [now left|].
  destruct (Z.gtb_spec (len (Name l)) maxLabelNameLen) as [Hn|Hn].
  { right; left. exists l. split; [now left|]. split; [lia|reflexivity]. }
  destruct (Z.gtb_spec (len (Value l)) (maxLabelValueLen g)) as [Hv|Hv].
  { right; right. exists l. split; [now left|].
    split; [lia|]. split; [lia|reflexivity]. }
  destruct IH as [H|[(x & Hx & H)|(x & Hx & H)]].
  - now left.
  - right; left. exists x. split; [now right|exact H].
  - right; right. exists x. split; [now right|exact H].
Qed.

(** What one call does, case by case. *)
Lemma ExceedingLabels_result (labels : list Label) (g : Globals) :
  ExceedingLabels labels g = (false, g)
  \/ (len_ labels > maxLabelsPerTimeseries g
      /\ ExceedingLabels labels g
         = (true, trackIgnoredSeriesWithTooManyLabels labels g))
  \/ (exists l, In l labels /\ len (Name l) > maxLabelNameLen
                /\ ExceedingLabels labels g
                   = (true, trackIgnoredSeriesWithTooLongLabelName l labels g))
  \/ (exists l, In l labels /\ len (Name l) <= maxLabelNameLen
                /\ len (Value l) > maxLabelValueLen g
                /\ ExceedingLabels labels g
                   = (true, trackIgnoredSeriesWithTooLongLabelValue l labels g)).
Proof.
  unfold ExceedingLabels.
  destruct (Z.gtb_spec (len_ labels) (maxLabelsPerTimeseries g)) as [Hc|Hc].
  - right; left. split; [lia|reflexivity].
  - destruct (exceedingLoop_result labels labels g) as [H|[H|H]]; auto.
Qed.

Lemma violates_Permutation (g : Globals) (l1 l2 : list Label) :
  Permutation l1 l2 -> violates g l1 -> violates g l2.
Proof.
  intros HP [Hc|(l & Hin & Hl)].
  - left. unfold len_ in *. now rewrite <- (Permutation_length HP).
  - right. exists l. split; [|exact Hl]. eapply Permutation_in; eassumption.
Qed.

Lemma bool_eq_iff (a b : bool) : (a = true <-> b = true) -> a = b.
Proof.
  destruct a, b; intros [H1 H2]; try reflexivity.
  - symmetry. now apply H1.
  - now apply H2.
Qed.

(** X9: the answer does not depend on the order of the labels: two label
    sets that are permutations of each other are both admitted or both
    refused.  Which counter a refusal bumps does depend on the order: a
    set with a too long name and a too long value counts for the one that
    comes first. *)
Theorem ExceedingLabels_order_of_labels (g : Globals) (l1 l2 : list Label) :
  Permutation l1 l2 ->
  fst (ExceedingLabels l1 g) = fst (ExceedingLabels l2 g)
  /\ (let a := labelSet 1 300 1 in
      let b := labelSet 1 1 5000 in
      Permutation (a ++ b) (b ++ a)
      /\ counter LabelNameTooLong (snd (ExceedingLabels (a ++ b) initial)) = 1
      /\ counter LabelNameTooLong (snd (ExceedingLabels (b ++ a) initial)) = 0).
Proof.
  intro HP. split.
  - apply bool_eq_iff. rewrite !ExceedingLabels_true.
    split; apply violates_Permutation; [exact HP|now apply Permutation_sym].
  - cbv zeta. split; [apply Permutation_app_comm|].
    split; vm_compute; reflexivity.
Qed.

Lemma ExceedingLabels_order_of_labels_witness :
  fst (ExceedingLabels (labelSet 1 1 5000 ++ labelSet 2 1 1) initial)
  = fst (ExceedingLabels (labelSet 2 1 1 ++ labelSet 1 1 5000) initial).
Proof.
  apply (ExceedingLabels_order_of_labels initial
           (labelSet 1 1 5000 ++ labelSet 2 1 1)
           (labelSet 2 1 1 ++ labelSet 1 1 5000)).
  apply Permutation_app_comm.
Defined.

(** X10: [InitLabelsLimits] sets the two limits and leaves the counters;
    larger limits admit more: a label set admitted under the limits
    [n], [m] is admitted under any limits [n' >= n], [m' >= m]. *)
Theorem InitLabelsLimits_larger_admit_more (n m n' m' : Z) (g : Globals)
  (labels : list Label) :
  n <= n' -> m <= m' ->
  fst (ExceedingLabels labels (InitLabelsLimits n m g)) = false ->
  fst (ExceedingLabels labels (InitLabelsLimits n' m' g)) = false
  /\ maxLabelsPerTimeseries (InitLabelsLimits n m g) = n
  /\ maxLabelValueLen (InitLabelsLimits n m g) = m
  /\ forall k, counter k (InitLabelsLimits n m g) = counter k g.
Proof.
  intros Hn Hm H. split; [|split; [reflexivity|split; [reflexivity|now intros []]]].
  destruct (fst (ExceedingLabels labels (InitLabelsLimits n' m' g))) eqn:E;
    [|reflexivity].
  apply ExceedingLabels_true in E.
  assert (V : violates (InitLabelsLimits n m g) labels).
  { destruct E as [Hc|(l & Hin & [Hl|Hl])]; simpl in *.
    - left. simpl. lia.
    - right. exists l. auto.
    - right. exists l. split; [exact Hin|]. right. simpl. lia. }
  apply ExceedingLabels_true in V. congruence.
Qed.

Lemma InitLabelsLimits_larger_admit_more_witness :
  fst (ExceedingLabels (labelSet 30 10 1000) (InitLabelsLimits 40 4096 initial))
  = false.
Proof.
  apply (InitLabelsLimits_larger_admit_more 30 1000 40 4096 initial
           (labelSet 30 10 1000)).
  - discriminate.
  - discriminate.
  - vm_compute. reflexivity.
Defined.

(** X11: taking labels away from an admitted set leaves it admitted: a
    label set with no more labels than an admitted one, all of them
    labels of that one, is admitted, and the call changes nothing. *)
Theorem ExceedingLabels_fewer_labels (g : Globals) (labels labels' : list Label) :
  fst (ExceedingLabels labels g) = false ->
  (forall l, In l labels' -> In l labels) ->
  len_ labels' <= len_ labels ->
  ExceedingLabels labels' g = (false, g).
Proof.
  intros H Hin Hlen.
  destruct (fst (ExceedingLabels labels' g)) eqn:E.
  - apply ExceedingLabels_true in E.
    assert (V : violates g labels).
    { destruct E as [Hc|(l & Hl & Hv)].
      - left. lia.
      - right. exists l. auto. }
    apply ExceedingLabels_true in V. congruence.
  - pose proof (ExceedingLabels_false _ _ E) as Hs.
    destruct (ExceedingLabels labels' g) as [b g']. simpl in *. congruence.
Qed.

Lemma ExceedingLabels_fewer_labels_witness :
  ExceedingLabels (labelSet 7 256 4096) initial = (false, initial).
Proof.
  apply (ExceedingLabels_fewer_labels initial (labelSet 40 256 4096)).
  - vm_compute. reflexivity.
  - unfold labelSet. intros l Hl. apply repeat_spec in Hl. subst l. now left.
  - vm_compute. discriminate.
Defined.

Lemma refusals_cons (b : bool) (bs : list bool) :
  refusals (b :: bs) = (if b then 1 else 0) + refusals bs.
Proof.
  unfold refusals. cbn [count_occ].
  destruct b; destruct (bool_dec _ true) as [E|E]; try congruence; lia.
Qed.

Lemma counters_step (labels : list Label) (g : Globals) :
  (forall k, 0 <= counter k g < 2 ^ 64 - 1) ->
  ignored (snd (ExceedingLabels labels g))
  = ignored g + (if fst (ExceedingLabels labels g) then 1 else 0)
  /\ forall k, counter k g <= counter k (snd (ExceedingLabels labels g))
               <= counter k g + 1.
Proof.
  intro Hr.
  pose proof (Hr TooManyLabels) as H1. pose proof (Hr LabelNameTooLong) as H2.
  pose proof (Hr LabelValueTooLong) as H3. simpl in H1, H2, H3.
  destruct (ExceedingLabels_result labels g)
    as [H|[[_ H]|[(l & _ & _ & H)|(l & _ & _ & _ & H)]]];
    rewrite H; unfold ignored; cbn [fst snd];
    (split; [|intros []]); simpl; unfold Uint64_Add;
    rewrite ?Z.mod_small by lia; lia.
Qed.

(** X12: the counters are exact.  Over any run of calls, the three
    counters together grow by the number of refusals, one for each call
    that answers [true], as long as no counter reaches 2^64; no counter
    ever goes down, and there is one answer for each call. *)
Theorem counters_are_exact (sets : list (list Label)) (g : Globals) :
  (forall k, 0 <= counter k g) ->
  (forall k, counter k g + len_ sets < 2 ^ 64) ->
  ignored (snd (ExceedingLabelsEach sets g))
  = ignored g + refusals (fst (ExceedingLabelsEach sets g))
  /\ List.length (fst (ExceedingLabelsEach sets g)) = List.length sets
  /\ forall k, counter k g <= counter k (snd (ExceedingLabelsEach sets g)).
Proof.
  revert g. induction sets as [|labels rest IH]; intros g H0 Hmax.
  - simpl. unfold refusals. simpl. split; [lia|]. split; [reflexivity|].
    intro k. lia.
  - unfold len_ in Hmax. cbn [List.length] in Hmax.
    assert (Hr : forall k, 0 <= counter k g < 2 ^ 64 - 1).
    { intro k. specialize (H0 k). specialize (Hmax k). lia. }
    destruct (counters_step labels g Hr) as [Hsum Hk].
    cbn [ExceedingLabelsEach].
    destruct (ExceedingLabels labels g) as [b g1]. cbn [fst snd] in Hsum, Hk.
    destruct (IH g1) as (IHsum & IHlen & IHk).
    + intro k. specialize (Hk k). specialize (H0 k). lia.
    + intro k. specialize (Hk k). specialize (Hmax k). unfold len_. lia.
    + destruct (ExceedingLabelsEach rest g1) as [bs g2]. cbn [fst snd] in *.
      rewrite refusals_cons. split; [lia|].
      split; [cbn [List.length]; now rewrite IHlen|].
      intro k. specialize (Hk k). specialize (IHk k). lia.
Qed.

Lemma counters_are_exact_witness :
  let sets := repeat (labelSet 41 1 1) 600 ++ repeat (labelSet 3 1 1) 50
              ++ repeat (labelSet 1 300 1) 400 in
  ignored (snd (ExceedingLabelsEach sets initial)) = 1000
  /\ List.length (fst (ExceedingLabelsEach sets initial)) = 1050%nat.
Proof.
  intro sets.
  destruct (counters_are_exact sets initial) as (Hsum & Hlen & _).
  - intros []; discriminate.
  - intros []; vm_compute; reflexivity.
  - split; [rewrite Hsum; vm_compute; reflexivity|].
    rewrite Hlen. vm_compute. reflexivity.
Defined.

Lemma warnings_step (labels : list Label) (g : Globals) (k : Kind) :
  (logged k (snd (ExceedingLabels labels g))
   + Nat.b2n (ticker k (snd (ExceedingLabels labels g)))
   = logged k g + Nat.b2n (ticker k g)
   /\ logged k g <= logged k (snd (ExceedingLabels labels g)))%nat.
Proof.
  destruct (ExceedingLabels_result labels g)
    as [H|[[_ H]|[(l & _ & _ & H)|(l & _ & _ & _ & H)]]];
    rewrite H; cbn [snd]; [split; [reflexivity|lia]| | |];
    unfold logged; destruct k; cbn [ticker warnings
      ignoredSeriesWithTooManyLabelsLogTicker
      ignoredSeriesWithTooLongLabelNameLogTicker
      ignoredSeriesWithTooLongLabelValueLogTicker
      trackIgnoredSeriesWithTooManyLabels
      trackIgnoredSeriesWithTooLongLabelName
      trackIgnoredSeriesWithTooLongLabelValue];
    match goal with
    | |- context [if ?t then _ else _] => destruct t
    | _ => idtac
    end;
    rewrite ?filter_app, ?length_app; simpl; lia.
Qed.

(** X13: the warnings are throttled, tick by tick.  Over any run of
    calls during which no ticker ticks, each kind of violation logs a
    warning only if a tick waited in its ticker, and then one warning and
    no more, however many series are refused: the warnings of a kind and
    the tick that waits make as many after the run as before. *)
Theorem warnings_are_throttled (sets : list (list Label)) (g : Globals) (k : Kind) :
  (logged k (snd (ExceedingLabelsEach sets g))
   + Nat.b2n (ticker k (snd (ExceedingLabelsEach sets g)))
   = logged k g + Nat.b2n (ticker k g))%nat
  /\ (logged k (snd (ExceedingLabelsEach sets g)) <= logged k g + 1)%nat
  /\ (ticker k g = false ->
      logged k (snd (ExceedingLabelsEach sets g)) = logged k g
      /\ ticker k (snd (ExceedingLabelsEach sets g)) = false).
Proof.
  assert (H : (logged k (snd (ExceedingLabelsEach sets g))
               + Nat.b2n (ticker k (snd (ExceedingLabelsEach sets g)))
               = logged k g + Nat.b2n (ticker k g)
               /\ logged k g <= logged k (snd (ExceedingLabelsEach sets g)))%nat).
  { revert g. induction sets as [|labels rest IH]; intro g; [simpl; lia|].
    cbn [ExceedingLabelsEach].
    pose proof (warnings_step labels g k) as Hs.
    destruct (ExceedingLabels labels g) as [b g1]. cbn [snd] in Hs.
    specialize (IH g1). destruct (ExceedingLabelsEach rest g1) as [bs g2].
    cbn [snd] in *. lia. }
  destruct H as [H Hle]. split; [exact H|]. split.
  - destruct (ticker k g), (ticker k (snd (ExceedingLabelsEach sets g)));
      simpl in H; lia.
  - intro Ht. rewrite Ht in H.
    destruct (ticker k (snd (ExceedingLabelsEach sets g))); simpl in H;
      split; try reflexivity; lia.
Qed.

Lemma warnings_are_throttled_witness :
  let ticked := mkGlobals 40 4096 0 0 0 true true true [] [] in
  let g := snd (ExceedingLabelsEach (repeat (labelSet 41 1 1) 1000) ticked) in
  counter TooManyLabels g = 1000 /\ logged TooManyLabels g = 1%nat
  /\ ticker TooManyLabels g = false /\ List.length (warnings g) = 1%nat.
Proof.
  intros ticked g.
  destruct (warnings_are_throttled (repeat (labelSet 41 1 1) 1000) ticked
              TooManyLabels) as (Hsum & _ & _).
  fold g in Hsum.
  assert (Ht : ticker TooManyLabels g = false) by (vm_compute; reflexivity).
  rewrite Ht in Hsum. cbn [Nat.b2n] in Hsum. rewrite Nat.add_0_r in Hsum.
  split; [vm_compute; reflexivity|]. split; [exact Hsum|].
  split; [exact Ht|vm_compute; reflexivity].
Defined.

(** X14: [InitLabelsLimits] takes any two numbers.  With a negative limit
    on the number of labels every label set is refused for too many
    labels, the empty one too, which is refused in this case only; with a
    negative limit on the length of values every label set but the empty
    one is refused. *)
Theorem InitLabelsLimits_negative (n m : Z) (g : Globals) (labels : list Label) :
  let g0 := InitLabelsLimits n m g in
  (n < 0 -> fst (ExceedingLabels labels g0) = true
            /\ snd (ExceedingLabels labels g0)
               = trackIgnoredSeriesWithTooManyLabels labels g0)
  /\ (fst (ExceedingLabels [] g0) = true <-> n < 0)
  /\ (m < 0 -> labels <> [] -> fst (ExceedingLabels labels g0) = true)
  /\ (0 <= n -> ExceedingLabels [] g0 = (false, g0)).
Proof.
  cbv zeta. split; [|split; [|split]].
  - intro Hn. unfold ExceedingLabels. cbn [maxLabelsPerTimeseries InitLabelsLimits].
    destruct (Z.gtb_spec (len_ labels) n) as [_|H]; [split; reflexivity|].
    unfold len_ in H. lia.
  - unfold ExceedingLabels. cbn [maxLabelsPerTimeseries InitLabelsLimits].
    destruct (Z.gtb_spec (len_ (@nil Label)) n) as [H|H]; unfold len_ in H;
      simpl in H; simpl; split; intro; try lia; try reflexivity; discriminate.
  - intros Hm Hne. apply ExceedingLabels_true.
    destruct labels as [|l rest]; [contradiction|].
    right. exists l. split; [now left|]. right. simpl. unfold len. lia.
  - intro Hn. unfold ExceedingLabels. cbn [maxLabelsPerTimeseries InitLabelsLimits].
    destruct (Z.gtb_spec (len_ (@nil Label)) n) as [H|H]; [|reflexivity].
    unfold len_ in H. simpl in H. lia.
Qed.

Lemma InitLabelsLimits_negative_witness :
  fst (ExceedingLabels [] (InitLabelsLimits (-1) 4096 initial)) = true
  /\ fst (ExceedingLabels (labelSet 1 1 0) (InitLabelsLimits 40 (-1) initial)) = true
  /\ ExceedingLabels [] (InitLabelsLimits 0 0 initial)
     = (false, InitLabelsLimits 0 0 initial).
Proof.
  destruct (InitLabelsLimits_negative (-1) 4096 initial []) as (Hneg & _).
  destruct (InitLabelsLimits_negative 40 (-1) initial (labelSet 1 1 0))
    as (_ & _ & Hval & _).
  destruct (InitLabelsLimits_negative 0 0 initial []) as (_ & _ & _ & Hzero).
  split; [|split].
  - apply Hneg. reflexivity.
  - apply Hval; [reflexivity|discriminate].
  - apply Hzero. discriminate.
Defined.

Lemma violates_limits (g1 g2 : Globals) (labels : list Label) :
  maxLabelsPerTimeseries g1 = maxLabelsPerTimeseries g2 ->
  maxLabelValueLen g1 = maxLabelValueLen g2 ->
  violates g1 labels -> violates g2 labels.
Proof. unfold violates. intros <- <-. auto. Qed.

Lemma ExceedingLabels_limits (labels : list Label) (g : Globals) :
  maxLabelsPerTimeseries (snd (ExceedingLabels labels g)) = maxLabelsPerTimeseries g
  /\ maxLabelValueLen (snd (ExceedingLabels labels g)) = maxLabelValueLen g.
Proof.
  destruct (ExceedingLabels_result labels g)
    as [H|[[_ H]|[(l & _ & _ & H)|(l & _ & _ & _ & H)]]];
    rewrite H; split; reflexivity.
Qed.

(** X17: the answer depends on the label set and the two limits, and on
    nothing else: not on the counters, the tickers or the warnings, and so
    not on the calls made before.  In a run of calls each answer is the
    one the call would give first. *)
Theorem ExceedingLabels_answers_are_fresh (sets : list (list Label))
  (g1 g2 : Globals) :
  maxLabelsPerTimeseries g1 = maxLabelsPerTimeseries g2 ->
  maxLabelValueLen g1 = maxLabelValueLen g2 ->
  fst (ExceedingLabelsEach sets g1)
  = map (fun labels => fst (ExceedingLabels labels g2)) sets
  /\ maxLabelsPerTimeseries (snd (ExceedingLabelsEach sets g1))
     = maxLabelsPerTimeseries g1
  /\ maxLabelValueLen (snd (ExceedingLabelsEach sets g1)) = maxLabelValueLen g1.
Proof.
  revert g1. induction sets as [|labels rest IH]; intros g1 Hn Hm;
    [repeat split|].
  cbn [ExceedingLabelsEach map].
  destruct (ExceedingLabels_limits labels g1) as [Ln Lm].
  assert (Hb : fst (ExceedingLabels labels g1) = fst (ExceedingLabels labels g2)).
  { apply bool_eq_iff. rewrite !ExceedingLabels_true.
    split; apply violates_limits; congruence. }
  destruct (ExceedingLabels labels g1) as [b g]. cbn [fst snd] in *.
  destruct (IH g) as (IHb & IHn & IHm); [congruence|congruence|].
  destruct (ExceedingLabelsEach rest g) as [bs g']. cbn [fst snd] in *.
  split; [congruence|]. split; congruence.
Qed.

Lemma ExceedingLabels_answers_are_fresh_witness :
  let ticked := mkGlobals 40 4096 7 8 9 true true true [] [] in
  fst (ExceedingLabelsEach [labelSet 41 1 1; labelSet 2 1 1; labelSet 1 300 1]
         ticked)
  = [true; false; true].
Proof.
  intro ticked.
  exact (proj1 (ExceedingLabels_answers_are_fresh
                  [labelSet 41 1 1; labelSet 2 1 1; labelSet 1 300 1]
                  ticked initial eq_refl eq_refl)).
Defined.

(** The loop stops at the first label that is not within the limits. *)
Lemma exceedingLoop_first (rest labels : list Label) (g : Globals) :
  exceedingLoop rest labels g = (false, g)
  \/ (exists pre l post,
        rest = pre ++ l :: post /\ Forall (within g) pre
        /\ len (Name l) > maxLabelNameLen
        /\ exceedingLoop rest labels g
           = (true, trackIgnoredSeriesWithTooLongLabelName l labels g))
  \/ (exists pre l post,
        rest = pre ++ l :: post /\ Forall (within g) pre
        /\ len (Name l) <= maxLabelNameLen
        /\ len (Value l) > maxLabelValueLen g
        /\ exceedingLoop rest labels g
           = (true, trackIgnoredSeriesWithTooLongLabelValue l labels g)).
Proof.
  induction rest as [|l rest IH]; simpl; [now left|].
  destruct (Z.gtb_spec (len (Name l)) maxLabelNameLen) as [Hn|Hn].
  { right; left. exists [], l, rest.
    split; [reflexivity|]. split; [constructor|]. split; [lia|reflexivity]. }
  destruct (Z.gtb_spec (len (Value l)) (maxLabelValueLen g)) as [Hv|Hv].
  { right; right. exists [], l, rest.
    split; [reflexivity|]. split; [constructor|].
    split; [lia|]. split; [lia|reflexivity]. }
  assert (Hl : within g l) by (split; lia).
  destruct IH as [H|[(pre & x & post & -> & Hpre & H)|(pre & x & post & -> & Hpre & H)]].
  - now left.
  - right; left. exists (l :: pre), x, post.
    split; [reflexivity|]. split; [now constructor|exact H].
  - right; right. exists (l :: pre), x, post.
    split; [reflexivity|]. split; [now constructor|exact H].
Qed.

(** What one call adds to the log: nothing, or one warning about this
    call, and then the call has refused the set. *)
Lemma ExceedingLabels_logs (labels : list Label) (g : Globals) :
  exists new,
    warnings (snd (ExceedingLabels labels g)) = warnings g ++ new
    /\ Forall (fun w => reports g labels w
                        /\ fst (ExceedingLabels labels g) = true) new.
Proof.
  unfold ExceedingLabels.
  destruct (Z.gtb_spec (len_ labels) (maxLabelsPerTimeseries g)) as [Hc|Hc].
  - cbn [fst snd trackIgnoredSeriesWithTooManyLabels warnings].
    destruct (ignoredSeriesWithTooManyLabelsLogTicker g).
    + eexists. split; [reflexivity|]. constructor; [|constructor].
      split; [|reflexivity]. simpl. repeat split; lia.
    + exists []. split; [now rewrite app_nil_r|constructor].
  - destruct (exceedingLoop_first labels labels g)
      as [H|[(pre & l & post & E & Hpre & Hn & H)|(pre & l & post & E & Hpre & Hn & Hv & H)]];
      rewrite H; cbn [fst snd].
    + exists []. split; [now rewrite app_nil_r|constructor].
    + cbn [trackIgnoredSeriesWithTooLongLabelName warnings].
      destruct (ignoredSeriesWithTooLongLabelNameLogTicker g).
      * eexists. split; [reflexivity|]. constructor; [|constructor].
        split; [|reflexivity]. simpl.
        split; [reflexivity|]. split; [lia|]. split; [eauto|].
        split; [reflexivity|]. split; [reflexivity|lia].
      * exists []. split; [now rewrite app_nil_r|constructor].
    + cbn [trackIgnoredSeriesWithTooLongLabelValue warnings].
      destruct (ignoredSeriesWithTooLongLabelValueLogTicker g).
      * eexists. split; [reflexivity|]. constructor; [|constructor].
        split; [|reflexivity]. simpl.
        split; [reflexivity|]. split; [lia|]. split; [eauto|].
        split; [lia|]. split; [reflexivity|]. split; [reflexivity|lia].
      * exists []. split; [now rewrite app_nil_r|constructor].
Qed.

Lemma within_limits (g1 g2 : Globals) (l : Label) :
  maxLabelValueLen g1 = maxLabelValueLen g2 -> within g1 l -> within g2 l.
Proof. unfold within. intros <-. auto. Qed.

Lemma reports_limits (g1 g2 : Globals) (labels : list Label) (w : Warning) :
  maxLabelsPerTimeseries g1 = maxLabelsPerTimeseries g2 ->
  maxLabelValueLen g1 = maxLabelValueLen g2 ->
  reports g1 labels w -> reports g2 labels w.
Proof.
  intros Hn Hm. destruct w as [n shown limit|l shown n limit|l shown n limit]; simpl.
  - rewrite Hn. auto.
  - intros (H1 & H2 & (pre & post & E & Hpre) & H3 & H4 & H5 & H6).
    rewrite <- Hn, <- Hm. repeat split; auto.
    exists pre, post. split; [exact E|].
    eapply Forall_impl; [|exact Hpre]. intro x. now apply within_limits.
  - intros (H1 & H2 & (pre & post & E & Hpre) & H3 & H4 & H5).
    rewrite <- Hn. repeat split; auto.
    exists pre, post. split; [exact E|].
    eapply Forall_impl; [|exact Hpre]. intro x. now apply within_limits.
Qed.

Lemma ExceedingLabels_fst_limits (g1 g2 : Globals) (labels : list Label) :
  maxLabelsPerTimeseries g1 = maxLabelsPerTimeseries g2 ->
  maxLabelValueLen g1 = maxLabelValueLen g2 ->
  fst (ExceedingLabels labels g1) = fst (ExceedingLabels labels g2).
Proof.
  intros Hn Hm. apply bool_eq_iff. rewrite !ExceedingLabels_true.
  split; apply violates_limits; congruence.
Qed.

(** X15: a warning tells the truth about a call of the run.  A run of
    calls only adds warnings to the log, and every warning it adds was
    logged for one of the label sets passed in, which was refused: the
    warning shows that very set and the limit in force, and it reports
    the number of labels of the set, or the first label of the set that
    is not within the limits with the length of its name or value, which
    is over that limit. *)
Theorem warnings_are_truthful (sets : list (list Label)) (g : Globals) :
  exists new,
    warnings (snd (ExceedingLabelsEach sets g)) = warnings g ++ new
    /\ Forall (fun w => exists labels,
                 In labels sets /\ reports g labels w
                 /\ fst (ExceedingLabels labels g) = true) new.
Proof.
  revert g. induction sets as [|labels rest IH]; intro g.
  - exists []. split; [simpl; now rewrite app_nil_r|constructor].
  - cbn [ExceedingLabelsEach].
    destruct (ExceedingLabels_logs labels g) as (new1 & E1 & H1).
    destruct (ExceedingLabels_limits labels g) as [Ln Lm].
    destruct (ExceedingLabels labels g) as [b g1] eqn:Eg. cbn [fst snd] in *.
    destruct (IH g1) as (new2 & E2 & H2).
    destruct (ExceedingLabelsEach rest g1) as [bs g2]. cbn [snd] in *.
    exists (new1 ++ new2). split; [now rewrite E2, E1, app_assoc|].
    apply Forall_app. split.
    + eapply Forall_impl; [|exact H1]. intros w [Hw Hb].
      exists labels. split; [now left|]. split; [exact Hw|].
      now rewrite Eg.
    + eapply Forall_impl; [|exact H2]. intros w (ls & Hin & Hw & Hb).
      exists ls. split; [now right|].
      split; [exact (reports_limits _ _ _ _ Ln Lm Hw)|].
      now rewrite <- (ExceedingLabels_fst_limits g1 g ls Ln Lm).
Qed.

Lemma warnings_are_truthful_witness :
  let ticked := mkGlobals 40 4096 0 0 0 true true true [] [] in
  let sets := [labelSet 2 1 1; labelSet 41 1 1; labelSet 1 300 5000;
               labelSet 1 1 5000; labelSet 1 1 4500] in
  exists new,
    warnings (snd (ExceedingLabelsEach sets ticked)) = new
    /\ List.length new = 3%nat
    /\ Forall (fun w => exists labels,
                 In labels sets /\ reports ticked labels w
                 /\ fst (ExceedingLabels labels ticked) = true) new.
Proof.
  intros ticked sets.
  destruct (warnings_are_truthful sets ticked) as (new & E & H).
  exists new. split; [exact E|]. split; [|exact H].
  change (warnings ticked ++ new) with new in E. rewrite <- E.
  vm_compute. reflexivity.
Defined.

End AdmissionRuns.
